(** * AI-Council: the deliberation orchestrator

    A shallow embedding of the council orchestrator (the [App] component with
    its [runExperiment], [loop], [finalizeSynthesis] and [resetExperiment]
    closures) and of the three versions of the Gemini service module that the
    repository carries, followed by the properties of the turn scheduler, of
    the fallback policy, of the synthesis stage and of the status machine.

    Conventions.
    - A JavaScript string is the list of its UTF-16 code units ([jsstring]).
    - The remote endpoint is a script of outcomes, one per call, consumed in
      order; a call beyond the end of the script is rejected.
    - Every React state setter and every gateway call is recorded, in order,
      in a trace of events, so that statements about "every point of a
      session" are statements about that trace.
    - A session runs from [runExperiment] to the end of [finalizeSynthesis]
      without another handler of the component (a reset, a change of the
      settings) running in between: the closures of one render see the
      council size, the roster and the synthesis model of that render. *)

From Stdlib Require Import String Ascii.
From Stdlib Require Import List NArith ZArith Arith Bool Lia.
From Stdlib Require QArith_base DecimalNat DecimalFacts.
Import ListNotations.

Set Implicit Arguments.

(* ================================================================== *)
(** ** JavaScript strings and the built-ins the orchestrator calls     *)
(* ================================================================== *)

Module Js.

(** A string is its sequence of UTF-16 code units. *)
Definition jsstring := list N.

(** An ASCII literal of the source, as code units. *)
Definition lit (s : string) : jsstring :=
  map N_of_ascii (list_ascii_of_string s).

Arguments lit : simpl never.

Definition nl : jsstring := [10%N].
Definition dq : jsstring := [34%N].

Definition eqb_char : N -> N -> bool := N.eqb.

Fixpoint eqb (s t : jsstring) : bool :=
  match s, t with
  | [], [] => true
  | c :: s', d :: t' => eqb_char c d && eqb s' t'
  | _, _ => false
  end.

(** ECMAScript WhiteSpace and LineTerminator code points; all of them lie in
    the basic plane, so the test is on one code unit. *)
Definition isWhiteSpace (c : N) : bool :=
  (existsb (N.eqb c)
     [9; 10; 11; 12; 13; 32; 160; 5760; 8232; 8233; 8239; 8287; 12288; 65279]
   || ((8192 <=? c) && (c <=? 8202)))%N.

(** [String.prototype.trimStart], [trimEnd] and [trim]. *)
Fixpoint trimStart (s : jsstring) : jsstring :=
  match s with
  | [] => []
  | c :: s' => if isWhiteSpace c then trimStart s' else s
  end.

Definition trimEnd (s : jsstring) : jsstring := rev (trimStart (rev s)).

Definition trim (s : jsstring) : jsstring := trimEnd (trimStart s).

(** The string is empty or its first code unit is not white space: what
    [trimStart] leaves. *)
Definition clean_start (s : jsstring) : bool :=
  match s with
  | [] => true
  | c :: _ => negb (isWhiteSpace c)
  end.

(** [s.startsWith(pat)]. *)
Fixpoint startsWith (s pat : jsstring) {struct pat} : bool :=
  match pat, s with
  | [], _ => true
  | p :: pat', c :: s' => eqb_char c p && startsWith s' pat'
  | _ :: _, [] => false
  end.

(** [s.includes(pat)]: [pat] occurs at some position of [s]. *)
Fixpoint includes (s pat : jsstring) : bool :=
  startsWith s pat
  || match s with
     | [] => false
     | _ :: s' => includes s' pat
     end.

(** [s.replace(pat, rep)] with a string pattern: only the first (leftmost)
    occurrence of [pat] is replaced.  The orchestrator only passes
    replacement strings without a dollar sign, so the replacement is
    literal. *)
Fixpoint replace (s pat rep : jsstring) : jsstring :=
  if startsWith s pat then rep ++ skipn (length pat) s
  else match s with
       | [] => []
       | c :: s' => c :: replace s' pat rep
       end.

(** [String.prototype.toLowerCase] on the ASCII letters.  Its one use
    compares the result with the literal "5090 giveaway"; no other code
    unit lower-cases to a letter of that literal, so the comparison is
    decided exactly. *)
Definition toLowerCase_char (c : N) : N :=
  if ((65 <=? c) && (c <=? 90))%N then (c + 32)%N else c.

Definition toLowerCase (s : jsstring) : jsstring := map toLowerCase_char s.

(** [Array.prototype.join]. *)
Fixpoint join (sep : jsstring) (l : list jsstring) : jsstring :=
  match l with
  | [] => []
  | [x] => x
  | x :: l' => x ++ sep ++ join sep l'
  end.

(** [Number.prototype.toString] on a natural number: decimal digits. *)
Fixpoint digits (u : Decimal.uint) : jsstring :=
  match u with
  | Decimal.Nil => []
  | Decimal.D0 u' => 48%N :: digits u'
  | Decimal.D1 u' => 49%N :: digits u'
  | Decimal.D2 u' => 50%N :: digits u'
  | Decimal.D3 u' => 51%N :: digits u'
  | Decimal.D4 u' => 52%N :: digits u'
  | Decimal.D5 u' => 53%N :: digits u'
  | Decimal.D6 u' => 54%N :: digits u'
  | Decimal.D7 u' => 55%N :: digits u'
  | Decimal.D8 u' => 56%N :: digits u'
  | Decimal.D9 u' => 57%N :: digits u'
  end.

Definition toString (n : nat) : jsstring := digits (Nat.to_uint n).

(** [s.padStart(len, pad)] with a one-unit pad string. *)
Definition padStart (s : jsstring) (len : nat) (pad : N) : jsstring :=
  repeat pad (len - length s) ++ s.

(** Truthiness of an optional string, as in [x || d]: [undefined] and the
    empty string are falsy. *)
Definition orElse (x : option jsstring) (d : jsstring) : jsstring :=
  match x with
  | Some (c :: s) => c :: s
  | _ => d
  end.

Definition truthy (x : option jsstring) : bool :=
  match x with
  | Some (_ :: _) => true
  | _ => false
  end.

End Js.

Import Js.

(* ================================================================== *)
(** ** types.ts                                                        *)
(* ================================================================== *)

Record AIInstance := {
  id : jsstring;
  name : jsstring;
  color : jsstring;
  borderColor : jsstring;
  model : jsstring
}.

Record WebSource := { uri : jsstring; title : jsstring }.

Record GroundingChunk := { web : option WebSource }.

Record DialogueEntry := {
  authorId : jsstring;
  authorName : jsstring;
  content : jsstring;
  timestamp : N;
  isHuman : option bool;
  grounding : option (list GroundingChunk)
}.

Inductive DeliberationStatus :=
  idle | running | paused | concluded | awaiting_approval.

(* ================================================================== *)
(** ** Computations with state and exceptions                          *)
(* ================================================================== *)

(** How an awaited call or a block of statements completes. *)
Inductive Result (A : Type) : Type :=
| Returned (a : A)
| Thrown.

Arguments Thrown {A}.

(** A computation over a state [S] that returns or throws. *)
Definition SE (S A : Type) : Type := S -> Result A * S.

Definition ret {S A} (a : A) : SE S A := fun s => (Returned a, s).

Definition throw {S A} : SE S A := fun s => (Thrown, s).

Definition bind {S A B} (c : SE S A) (k : A -> SE S B) : SE S B :=
  fun s =>
    match c s with
    | (Returned a, s1) => k a s1
    | (Thrown, s1) => (Thrown, s1)
    end.

(** [try { c } catch { h }]. *)
Definition try_catch {S A} (c h : SE S A) : SE S A :=
  fun s =>
    match c s with
    | (Returned a, s1) => (Returned a, s1)
    | (Thrown, s1) => h s1
    end.

(** [try { c } finally { f }]: the completion of [c] is kept unless [f]
    throws. *)
Definition try_finally {S A} (c : SE S A) (f : SE S unit) : SE S A :=
  fun s =>
    let '(r, s1) := c s in
    match f s1 with
    | (Returned _, s2) => (r, s2)
    | (Thrown, s2) => (Thrown, s2)
    end.

Definition get {S} : SE S S := fun s => (Returned s, s).

Definition modify {S} (f : S -> S) : SE S unit := fun s => (Returned tt, f s).

Declare Scope se_scope.
Delimit Scope se_scope with se.

Notation "x <- c ;; k" := (bind c (fun x => k))
  (at level 61, c at next level, right associativity) : se_scope.
Notation "c ;; k" := (bind c (fun _ => k))
  (at level 61, right associativity) : se_scope.

Local Open Scope se_scope.

(* ================================================================== *)
(** ** The model gateway ([ai.models.generateContent])                 *)
(* ================================================================== *)

Module GenAI.

Inductive Tool := googleSearch.

Record Config := {
  systemInstruction : option jsstring;
  temperature : option QArith_base.Q;
  tools : option (list Tool)
}.

Record Params := {
  model : jsstring;
  contents : jsstring;
  config : option Config
}.

Record Response := {
  text : option jsstring;
  groundingChunks : option (list GroundingChunk)
}.

(** What the endpoint does with one call: it answers, or the promise is
    rejected (transport or API error). *)
Inductive Outcome :=
| Resolved (r : Response)
| Rejected.

(** The endpoint as seen by the service module: the outcomes still to come,
    and the calls made so far, oldest first. *)
Record Endpoint := {
  script : list Outcome;
  calls : list Params
}.

Definition Gateway (A : Type) : Type := SE Endpoint A.

(** [await ai.models.generateContent(p)]. *)
Definition generateContent (p : Params) : Gateway Response :=
  fun e =>
    match script e with
    | Resolved r :: rest =>
        (Returned r, {| script := rest; calls := calls e ++ [p] |})
    | Rejected :: rest =>
        (Thrown, {| script := rest; calls := calls e ++ [p] |})
    | [] =>
        (Thrown, {| script := []; calls := calls e ++ [p] |})
    end.

End GenAI.

Import GenAI(Gateway, generateContent, googleSearch, Resolved, Rejected).

(** The value of [response.candidates?.[0]?.groundingMetadata?.groundingChunks]. *)
Definition grounding_of (r : GenAI.Response) : option (list GroundingChunk) :=
  GenAI.groundingChunks r.

(* ================================================================== *)
(** ** constants.tsx                                                   *)
(* ================================================================== *)

Definition COLORS : list jsstring := [
  lit "text-red-500"; lit "text-orange-500"; lit "text-yellow-500";
  lit "text-green-500"; lit "text-blue-500"; lit "text-purple-500";
  lit "text-pink-500"; lit "text-cyan-500"; lit "text-emerald-500";
  lit "text-amber-500"; lit "text-indigo-500"; lit "text-lime-500";
  lit "text-rose-500"; lit "text-teal-500"; lit "text-violet-500";
  lit "text-fuchsia-500"; lit "text-sky-500"
].

(** The element that [Array.from({ length: 50 }, (_, i) => ...)] builds at
    index [i]. *)
Definition potential_instance (i : nat) : AIInstance := {|
  id := toString (i + 1);
  name := lit "INSTANCE_" ++ padStart (toString (i + 1)) 2 48%N;
  color := nth (i mod length COLORS) COLORS [];
  borderColor :=
    replace (nth (i mod length COLORS) COLORS []) (lit "text-") (lit "border-");
  model := lit "gemini-flash-lite-latest"
|}.

Definition ALL_POTENTIAL_INSTANCES : list AIInstance :=
  map potential_instance (seq 0 50).

Definition SYSTEM_PROMPT_TEMPLATE (name : jsstring) (totalCount : nat) : jsstring :=
  nl ++
  lit "You are " ++ name ++ lit ", one of " ++ toString totalCount ++ lit " AI instances participating in a high-speed deliberation experiment." ++ nl ++
  lit "Your goal: Analyze the input topic, build upon or challenge the thoughts of other instances, and move toward the most logical and optimized conclusion." ++ nl ++
  nl ++
  lit "RULES:" ++ nl ++
  lit "1. NO ROLEPLAY. Do not adopt a persona. You are a raw large language model." ++ nl ++
  lit "2. BE CONCISE. Maximum 2 sentences per turn." ++ nl ++
  lit "3. CONTEXTUAL AWARENESS. Read the history carefully. Address specific points made by previous instances." ++ nl ++
  lit "4. TERMINATION LOGIC: If you believe the council has reached a definitive and optimized consensus, append '[TERMINATE_DELIBERATION]' to the end of your message. If more refinement is needed, do not include this tag." ++ nl ++
  lit "5. EVOLVE. Identify logical flaws or gaps in the current consensus and fix them." ++ nl ++
  lit "6. TOOL USAGE: If a fact, product, or specific data point is missing from your internal database, or if you are performing product finding/market analysis, you MUST use the 'googleSearch' tool to retrieve accurate, real-time information." ++ nl.

Definition SYNTHESIS_PROMPT (topic historyText : jsstring) : jsstring :=
  nl ++
  lit "Topic: " ++ topic ++ nl ++
  lit "History: " ++ historyText ++ nl ++
  nl ++
  lit "As the final supervisor instance, synthesize the entire deliberation above into the " ++ dq ++ lit "Best Possible Response" ++ dq ++ lit ". " ++ nl ++
  lit "Be definitive, objective, and comprehensive. Ensure the final result represents the peak of the collective reasoning provided by the instances." ++ nl ++
  lit "Format: Start with " ++ dq ++ lit "FINAL VERDICT:" ++ dq ++ lit " followed by the synthesized conclusion." ++ nl.

(** The control token of the deliberation. *)
Definition terminateSignal : jsstring := lit "[TERMINATE_DELIBERATION]".

Arguments terminateSignal : simpl never.

(** The designated low-cost fallback model. *)
Definition fallbackModel : jsstring := lit "gemini-flash-lite-latest".

(* ================================================================== *)
(** ** services/geminiService.ts: what the module exports              *)
(* ================================================================== *)

(** The object [{ text, grounding }] that [getAIResponse] resolves to. *)
Module Reply.
Record t := {
  text : jsstring;
  grounding : option (list GroundingChunk)
}.
End Reply.

(** The value that [getFinalSynthesis] resolves to and that the caller
    hands to [setVerdict]: a string, or, in the version with a priority
    list, the object [{ text, modelId }]. *)
Inductive Verdict :=
| VText (s : jsstring)
| VRecord (text modelId : jsstring).

(** The three functions the orchestrator imports from the service module.
    The repository carries three versions of that module; each is an
    instance of this interface. *)
Record ServiceModule := exports {
  promptEngineerTopic : jsstring -> Gateway jsstring;
  getAIResponse :
    AIInstance -> jsstring -> list DialogueEntry -> nat -> Gateway Reply.t;
  getFinalSynthesis :
    jsstring -> list DialogueEntry -> jsstring -> Gateway Verdict
}.

(** [`${h.authorName}: ${h.content}`] *)
Definition render (h : DialogueEntry) : jsstring :=
  authorName h ++ lit ": " ++ content h.

(** The [config] object of a council turn. *)
Definition turn_config (instance : AIInstance) (totalInstances : nat) : GenAI.Config := {|
  GenAI.systemInstruction :=
    Some (SYSTEM_PROMPT_TEMPLATE (name instance) totalInstances);
  GenAI.temperature := Some (QArith_base.Qmake 8%Z 10%positive);
  GenAI.tools := Some [googleSearch]
|}.

(** [{ ...config, tools: [] }] *)
Definition without_tools (c : GenAI.Config) : GenAI.Config := {|
  GenAI.systemInstruction := GenAI.systemInstruction c;
  GenAI.temperature := GenAI.temperature c;
  GenAI.tools := Some []
|}.

(** *** src/services/geminiService.ts *)
Module GeminiService.

Definition promptEngineerTopic (rawTopic : jsstring) : Gateway jsstring :=
  let prompt :=
    nl ++
    lit "    You are a world-class Prompt Engineer. " ++ nl ++
    lit "    The user provided a raw problem/topic: " ++ dq ++ rawTopic ++ dq ++ nl ++
    lit "    " ++ nl ++
    lit "    Your task is to rewrite this topic into a highly structured, objective, and analytically clear deliberation target for an AI council. " ++ nl ++
    lit "    Make it precise, identify key constraints, and set a clear objective." ++ nl ++
    lit "    Keep the output concise (max 3 sentences)." ++ nl ++
    lit "    Output ONLY the engineered prompt text." ++ nl ++
    lit "  " in
  try_catch
    (response <- generateContent {|
         GenAI.model := lit "gemini-3-flash-preview";
         GenAI.contents := prompt;
         GenAI.config := None |} ;;
     ret (orElse (option_map trim (GenAI.text response)) rawTopic))
    (ret rawTopic).

Definition getAIResponse (instance : AIInstance) (topic : jsstring)
    (history : list DialogueEntry) (totalInstances : nat) : Gateway Reply.t :=
  let historyText :=
    if 0 <? length history then join nl (map render history)
    else lit "The discussion is just beginning. Provide an opening thesis." in
  let prompt :=
    nl ++
    lit "    Topic: " ++ topic ++ nl ++
    lit "    History:" ++ nl ++
    lit "    " ++ historyText ++ nl ++
    lit "    " ++ nl ++
    lit "    Instruction: Provide your contribution as " ++ name instance ++ lit ". If you think consensus is reached, add [TERMINATE_DELIBERATION]." ++ nl ++
    lit "  " in
  let config := turn_config instance totalInstances in
  try_catch
    (response <- generateContent {|
         GenAI.model := model instance;
         GenAI.contents := prompt;
         GenAI.config := Some config |} ;;
     let text := orElse (GenAI.text response) (lit "Error: Null response.") in
     let grounding := grounding_of response in
     ret {| Reply.text := text; Reply.grounding := grounding |})
    (ret {| Reply.text := lit "[CONNECTION ERROR]"; Reply.grounding := None |}).

Definition getFinalSynthesis (topic : jsstring) (history : list DialogueEntry)
    (model : jsstring) : Gateway Verdict :=
  let historyText := join nl (map render history) in
  try_catch
    (response <- generateContent {|
         GenAI.model := model;
         GenAI.contents := SYNTHESIS_PROMPT topic historyText;
         GenAI.config := Some {|
           GenAI.systemInstruction := None;
           GenAI.temperature := Some (QArith_base.Qmake 3%Z 10%positive);
           GenAI.tools := Some [googleSearch] |} |} ;;
     ret (VText (orElse (GenAI.text response) (lit "Synthesis failed."))))
    (ret (VText (lit "Error generating final synthesis."))).

Definition module : ServiceModule :=
  exports promptEngineerTopic getAIResponse getFinalSynthesis.

End GeminiService.

(** *** The version of the service module with a fallback node and a
    synthesis priority list (constants.tsx, lines 640 to 778) *)
Module GeminiServicePriority.

Section WithPriorityList.

(** The constant is imported from a version of constants.tsx that the
    repository does not carry: it is a parameter here. *)
Variable SYNTHESIS_PRIORITY_LIST : list jsstring.

Definition promptEngineerTopic (rawTopic : jsstring) : Gateway jsstring :=
  let prompt :=
    nl ++
    lit "    You are a professional Prompt Engineer for an AI Governance Council." ++ nl ++
    lit "    The user provided a raw objective: " ++ dq ++ rawTopic ++ dq ++ nl ++
    lit "    " ++ nl ++
    lit "    Your task is to rewrite this objective into a highly structured, objective, and analytically clear deliberation target for the Council. " ++ nl ++
    lit "    Make it precise, identify key constraints, and set a clear objective for multi-agent reasoning." ++ nl ++
    lit "    Keep the output concise (max 3 sentences)." ++ nl ++
    lit "    Output ONLY the engineered prompt text." ++ nl ++
    lit "  " in
  try_catch
    (response <- generateContent {|
         GenAI.model := lit "gemini-3-flash-preview";
         GenAI.contents := prompt;
         GenAI.config := None |} ;;
     ret (orElse (option_map trim (GenAI.text response)) rawTopic))
    (ret rawTopic).

(** The prompt of a council turn. *)
Definition turn_prompt (instance : AIInstance) (topic : jsstring)
    (history : list DialogueEntry) : jsstring :=
  let historyText :=
    if 0 <? length history then join nl (map render history)
    else lit "The deliberation session is just beginning. Provide an opening thesis for the objective." in
  nl ++
  lit "    Strategic Objective: " ++ topic ++ nl ++
  lit "    Council History:" ++ nl ++
  lit "    " ++ historyText ++ nl ++
  lit "    " ++ nl ++
  lit "    Instruction: Provide your analytical contribution as " ++ name instance ++ lit ". If you believe a logical consensus has been reached, add [TERMINATE_DELIBERATION]." ++ nl ++
  lit "  ".

(** The [catch] blocks log [error.message]; the value that a rejected call
    throws is an [Error] object, so the logging itself does not throw. *)
Definition getAIResponse (instance : AIInstance) (topic : jsstring)
    (history : list DialogueEntry) (totalInstances : nat) : Gateway Reply.t :=
  let prompt := turn_prompt instance topic history in
  let config := turn_config instance totalInstances in
  try_catch
    (response <- generateContent {|
         GenAI.model := model instance;
         GenAI.contents := prompt;
         GenAI.config := Some config |} ;;
     let text := orElse (GenAI.text response) (lit "No analytical response generated.") in
     let grounding := grounding_of response in
     ret {| Reply.text := text; Reply.grounding := grounding |})
    ((* Fallback logic *)
     if negb (Js.eqb (model instance) (lit "gemini-flash-lite-latest")) then
       try_catch
         (fallbackResponse <- generateContent {|
              GenAI.model := lit "gemini-flash-lite-latest";
              GenAI.contents := prompt;
              GenAI.config := Some (without_tools config) |} ;;
          ret {| Reply.text :=
                   orElse (GenAI.text fallbackResponse) (lit "Node fallback failed.")
                   ++ lit " (Fallback Node Protocol)";
                 Reply.grounding := None |})
         (ret {| Reply.text := lit "Protocol failure on node: " ++ name instance;
                 Reply.grounding := None |})
     else
       ret {| Reply.text :=
                lit "Error: Communication link severed for node " ++ name instance;
              Reply.grounding := None |}).

(** The request that the synthesis sends to candidate [modelId]. *)
Definition synthesis_request (prompt modelId : jsstring) : GenAI.Params := {|
  GenAI.model := modelId;
  GenAI.contents := prompt;
  GenAI.config := Some {|
    GenAI.systemInstruction := None;
    GenAI.temperature := Some (QArith_base.Qmake 2%Z 10%positive);
    GenAI.tools := None |}
|}.

(** The [for (const modelId of ...)] loop of [getFinalSynthesis] over the
    candidates that remain, followed by the [throw] that ends the
    function. *)
Fixpoint attempt (prompt : jsstring) (candidates : list jsstring)
    : Gateway Verdict :=
  match candidates with
  | [] => throw
  | modelId :: rest =>
      answered <-
        try_catch
          (response <- generateContent (synthesis_request prompt modelId) ;;
           ret (if truthy (GenAI.text response) then GenAI.text response
                else None))
          (ret None) ;;
      match answered with
      | Some text => ret (VRecord text modelId)
      | None => attempt prompt rest
      end
  end.

Definition getFinalSynthesis (topic : jsstring) (history : list DialogueEntry)
    : Gateway Verdict :=
  let historyText := join (nl ++ nl) (map render history) in
  let prompt := SYNTHESIS_PROMPT topic historyText in
  attempt prompt SYNTHESIS_PRIORITY_LIST.

(** The orchestrator passes a third argument, which this version ignores. *)
Definition module : ServiceModule :=
  exports promptEngineerTopic getAIResponse
    (fun topic history _ => getFinalSynthesis topic history).

End WithPriorityList.

End GeminiServicePriority.

(** *** The version of the service module with a fallback node and one
    synthesis model (constants.tsx, lines 779 to 902) *)
Module GeminiServiceFallback.

Definition promptEngineerTopic (rawTopic : jsstring) : Gateway jsstring :=
  let prompt :=
    nl ++
    lit "    You are a professional Prompt Engineer for an AI Governance Council." ++ nl ++
    lit "    The user provided a raw objective: " ++ dq ++ rawTopic ++ dq ++ nl ++
    lit "    " ++ nl ++
    lit "    Your task is to rewrite this objective into a highly structured, objective, and analytically clear deliberation target for the Council. " ++ nl ++
    lit "    Make it precise, identify key constraints, and set a clear objective for multi-agent reasoning." ++ nl ++
    lit "    Keep the output concise (max 3 sentences)." ++ nl ++
    lit "    Output ONLY the engineered prompt text." ++ nl ++
    lit "  " in
  try_catch
    (response <- generateContent {|
         GenAI.model := lit "gemini-3-flash-preview";
         GenAI.contents := prompt;
         GenAI.config := None |} ;;
     ret (orElse (option_map trim (GenAI.text response)) rawTopic))
    (ret rawTopic).

Definition getAIResponse (instance : AIInstance) (topic : jsstring)
    (history : list DialogueEntry) (totalInstances : nat) : Gateway Reply.t :=
  let historyText :=
    if 0 <? length history then join nl (map render history)
    else lit "The deliberation session is just beginning. Provide an opening thesis for the objective." in
  let prompt :=
    nl ++
    lit "    Strategic Objective: " ++ topic ++ nl ++
    lit "    Council History:" ++ nl ++
    lit "    " ++ historyText ++ nl ++
    lit "    " ++ nl ++
    lit "    Instruction: Provide your analytical contribution as " ++ name instance ++ lit ". If you believe a logical consensus has been reached, add [TERMINATE_DELIBERATION]." ++ nl ++
    lit "  " in
  let config := turn_config instance totalInstances in
  try_catch
    (response <- generateContent {|
         GenAI.model := model instance;
         GenAI.contents := prompt;
         GenAI.config := Some config |} ;;
     let text := orElse (GenAI.text response) (lit "Error: Null response.") in
     let grounding := grounding_of response in
     ret {| Reply.text := text; Reply.grounding := grounding |})
    (if negb (Js.eqb (model instance) (lit "gemini-flash-lite-latest")) then
       try_catch
         (fallbackResponse <- generateContent {|
              GenAI.model := lit "gemini-flash-lite-latest";
              GenAI.contents := prompt;
              GenAI.config := Some (without_tools config) |} ;;
          ret {| Reply.text :=
                   orElse (GenAI.text fallbackResponse) (lit "Fallback error.");
                 Reply.grounding := None |})
         (ret {| Reply.text := lit "Critical system failure on this node.";
                 Reply.grounding := None |})
     else
       ret {| Reply.text := lit "Node offline."; Reply.grounding := None |}).

Definition getFinalSynthesis (topic : jsstring) (history : list DialogueEntry)
    (modelId : jsstring) : Gateway Verdict :=
  let historyText := join (nl ++ nl) (map render history) in
  let prompt := SYNTHESIS_PROMPT topic historyText in
  try_catch
    (response <- generateContent {|
         GenAI.model := modelId;
         GenAI.contents := prompt;
         GenAI.config := Some {|
           GenAI.systemInstruction := None;
           GenAI.temperature := Some (QArith_base.Qmake 2%Z 10%positive);
           GenAI.tools := None |} |} ;;
     ret (VText (orElse (GenAI.text response) (lit "Synthesis failed."))))
    (ret (VText (lit "The Council has reached a stalemate. Synthesis engine unavailable."))).

Definition module : ServiceModule :=
  exports promptEngineerTopic getAIResponse getFinalSynthesis.

End GeminiServiceFallback.

(* ================================================================== *)
(** ** App.tsx: the state of the component                             *)
(* ================================================================== *)

(** The [useState] cells that the orchestrator reads or writes, followed by
    the four [useRef] cells.  The cells that only drive the layout (side
    bar, settings and info cards, suggestions, connectivity results) are
    left out. *)
Record App := mkApp {
  topicInput : jsstring;
  topic : jsstring;
  history : list DialogueEntry;
  status : DeliberationStatus;
  activeInstanceId : option jsstring;
  verdict : option Verdict;
  instanceCount : nat;
  instances : list AIInstance;
  synthesisModel : jsstring;
  isDevMenuOpen : bool;
  isEngineering : bool;
  isRunningRef : bool;
  currentHistoryRef : list DialogueEntry;
  turnCountRef : nat;
  optimizedTopicRef : jsstring
}.

(** Field updates. *)
Definition with_topicInput (v : jsstring) (a : App) : App :=
  mkApp v (topic a) (history a) (status a) (activeInstanceId a) (verdict a)
    (instanceCount a) (instances a) (synthesisModel a) (isDevMenuOpen a)
    (isEngineering a) (isRunningRef a) (currentHistoryRef a) (turnCountRef
    a) (optimizedTopicRef a).

Definition with_topic (v : jsstring) (a : App) : App :=
  mkApp (topicInput a) v (history a) (status a) (activeInstanceId a)
    (verdict a) (instanceCount a) (instances a) (synthesisModel a)
    (isDevMenuOpen a) (isEngineering a) (isRunningRef a) (currentHistoryRef
    a) (turnCountRef a) (optimizedTopicRef a).

Definition with_history (v : list DialogueEntry) (a : App) : App :=
  mkApp (topicInput a) (topic a) v (status a) (activeInstanceId a) (verdict
    a) (instanceCount a) (instances a) (synthesisModel a) (isDevMenuOpen a)
    (isEngineering a) (isRunningRef a) (currentHistoryRef a) (turnCountRef
    a) (optimizedTopicRef a).

Definition with_status (v : DeliberationStatus) (a : App) : App :=
  mkApp (topicInput a) (topic a) (history a) v (activeInstanceId a) (verdict
    a) (instanceCount a) (instances a) (synthesisModel a) (isDevMenuOpen a)
    (isEngineering a) (isRunningRef a) (currentHistoryRef a) (turnCountRef
    a) (optimizedTopicRef a).

Definition with_activeInstanceId (v : option jsstring) (a : App) : App :=
  mkApp (topicInput a) (topic a) (history a) (status a) v (verdict a)
    (instanceCount a) (instances a) (synthesisModel a) (isDevMenuOpen a)
    (isEngineering a) (isRunningRef a) (currentHistoryRef a) (turnCountRef
    a) (optimizedTopicRef a).

Definition with_verdict (v : option Verdict) (a : App) : App :=
  mkApp (topicInput a) (topic a) (history a) (status a) (activeInstanceId a)
    v (instanceCount a) (instances a) (synthesisModel a) (isDevMenuOpen a)
    (isEngineering a) (isRunningRef a) (currentHistoryRef a) (turnCountRef
    a) (optimizedTopicRef a).

Definition with_instanceCount (v : nat) (a : App) : App :=
  mkApp (topicInput a) (topic a) (history a) (status a) (activeInstanceId a)
    (verdict a) v (instances a) (synthesisModel a) (isDevMenuOpen a)
    (isEngineering a) (isRunningRef a) (currentHistoryRef a) (turnCountRef
    a) (optimizedTopicRef a).

Definition with_instances (v : list AIInstance) (a : App) : App :=
  mkApp (topicInput a) (topic a) (history a) (status a) (activeInstanceId a)
    (verdict a) (instanceCount a) v (synthesisModel a) (isDevMenuOpen a)
    (isEngineering a) (isRunningRef a) (currentHistoryRef a) (turnCountRef
    a) (optimizedTopicRef a).

Definition with_synthesisModel (v : jsstring) (a : App) : App :=
  mkApp (topicInput a) (topic a) (history a) (status a) (activeInstanceId a)
    (verdict a) (instanceCount a) (instances a) v (isDevMenuOpen a)
    (isEngineering a) (isRunningRef a) (currentHistoryRef a) (turnCountRef
    a) (optimizedTopicRef a).

Definition with_isDevMenuOpen (v : bool) (a : App) : App :=
  mkApp (topicInput a) (topic a) (history a) (status a) (activeInstanceId a)
    (verdict a) (instanceCount a) (instances a) (synthesisModel a) v
    (isEngineering a) (isRunningRef a) (currentHistoryRef a) (turnCountRef
    a) (optimizedTopicRef a).

Definition with_isEngineering (v : bool) (a : App) : App :=
  mkApp (topicInput a) (topic a) (history a) (status a) (activeInstanceId a)
    (verdict a) (instanceCount a) (instances a) (synthesisModel a)
    (isDevMenuOpen a) v (isRunningRef a) (currentHistoryRef a) (turnCountRef
    a) (optimizedTopicRef a).

Definition with_isRunningRef (v : bool) (a : App) : App :=
  mkApp (topicInput a) (topic a) (history a) (status a) (activeInstanceId a)
    (verdict a) (instanceCount a) (instances a) (synthesisModel a)
    (isDevMenuOpen a) (isEngineering a) v (currentHistoryRef a)
    (turnCountRef a) (optimizedTopicRef a).

Definition with_currentHistoryRef (v : list DialogueEntry) (a : App) : App :=
  mkApp (topicInput a) (topic a) (history a) (status a) (activeInstanceId a)
    (verdict a) (instanceCount a) (instances a) (synthesisModel a)
    (isDevMenuOpen a) (isEngineering a) (isRunningRef a) v (turnCountRef a)
    (optimizedTopicRef a).

Definition with_turnCountRef (v : nat) (a : App) : App :=
  mkApp (topicInput a) (topic a) (history a) (status a) (activeInstanceId a)
    (verdict a) (instanceCount a) (instances a) (synthesisModel a)
    (isDevMenuOpen a) (isEngineering a) (isRunningRef a) (currentHistoryRef
    a) v (optimizedTopicRef a).

Definition with_optimizedTopicRef (v : jsstring) (a : App) : App :=
  mkApp (topicInput a) (topic a) (history a) (status a) (activeInstanceId a)
    (verdict a) (instanceCount a) (instances a) (synthesisModel a)
    (isDevMenuOpen a) (isEngineering a) (isRunningRef a) (currentHistoryRef
    a) (turnCountRef a) v.

(** The state of the component when it is mounted. *)
Definition initial_app : App := {|
  topicInput := [];
  topic := [];
  history := [];
  status := idle;
  activeInstanceId := None;
  verdict := None;
  instanceCount := 6;
  instances := ALL_POTENTIAL_INSTANCES;
  synthesisModel := lit "gemini-3-pro-preview";
  isDevMenuOpen := false;
  isEngineering := false;
  isRunningRef := false;
  currentHistoryRef := [];
  turnCountRef := 0;
  optimizedTopicRef := []
|}.

(** What an observer of the component and of the network sees, in order:
    the calls of the React state setters, the requests sent to the
    endpoint, and the text that each awaited [getAIResponse] resolved to. *)
Inductive Event :=
| SetTopicInput (v : jsstring)
| SetTopic (v : jsstring)
| SetHistory (v : list DialogueEntry)
| SetStatus (v : DeliberationStatus)
| SetActiveInstanceId (v : option jsstring)
| SetVerdict (v : option Verdict)
| SetIsEngineering (v : bool)
| SetIsDevMenuOpen (v : bool)
| Generate (p : GenAI.Params)
| Answered (text : jsstring).

(** The component together with its environment: the outcomes that the
    endpoint will give to the calls still to come, the events so far
    (oldest first) and the clock read by [Date.now()]. *)
Record Machine := {
  component : App;
  script : list GenAI.Outcome;
  trace : list Event;
  now : N
}.

Definition M (A : Type) : Type := SE Machine A.

(** A write to the component, with the events it shows. *)
Definition update (f : App -> App) (evs : list Event) : M unit :=
  modify (fun m => {|
    component := f (component m);
    script := script m;
    trace := trace m ++ evs;
    now := now m |}).

Definition get_component : M App := fun m => (Returned (component m), m).

(** The React state setters. *)
Definition setTopicInput (v : jsstring) : M unit :=
  update (with_topicInput v) [SetTopicInput v].
Definition setTopic (v : jsstring) : M unit :=
  update (with_topic v) [SetTopic v].
Definition setHistory (v : list DialogueEntry) : M unit :=
  update (with_history v) [SetHistory v].
Definition setStatus (v : DeliberationStatus) : M unit :=
  update (with_status v) [SetStatus v].
Definition setActiveInstanceId (v : option jsstring) : M unit :=
  update (with_activeInstanceId v) [SetActiveInstanceId v].
Definition setVerdict (v : option Verdict) : M unit :=
  update (with_verdict v) [SetVerdict v].
Definition setIsEngineering (v : bool) : M unit :=
  update (with_isEngineering v) [SetIsEngineering v].
Definition setIsDevMenuOpen (v : bool) : M unit :=
  update (with_isDevMenuOpen v) [SetIsDevMenuOpen v].
Definition setInstances (f : list AIInstance -> list AIInstance) : M unit :=
  update (fun a => with_instances (f (instances a)) a) [].
Definition setInstanceCount (v : nat) : M unit :=
  update (with_instanceCount v) [].
Definition setSynthesisModel (v : jsstring) : M unit :=
  update (with_synthesisModel v) [].

(** Assignments to the [current] field of the refs. *)
Definition set_isRunningRef (v : bool) : M unit :=
  update (with_isRunningRef v) [].
Definition set_currentHistoryRef (v : list DialogueEntry) : M unit :=
  update (with_currentHistoryRef v) [].
Definition set_turnCountRef (v : nat) : M unit :=
  update (with_turnCountRef v) [].
Definition set_optimizedTopicRef (v : jsstring) : M unit :=
  update (with_optimizedTopicRef v) [].

(** [await c] for a call [c] into the service module: the endpoint serves
    the call from the script, and the requests it received are shown. *)
Definition await {A} (c : Gateway A) : M A :=
  fun m =>
    let '(r, e) := c {| GenAI.script := script m; GenAI.calls := [] |} in
    (r, {| component := component m;
           script := GenAI.script e;
           trace := trace m ++ map Generate (GenAI.calls e);
           now := now m |}).

(** [Date.now()] *)
Definition Date_now : M N := fun m => (Returned (now m), m).

(** [await new Promise(resolve => setTimeout(resolve, ms))]: the clock
    moves on by the delay.  (Time also passes during the awaited calls; no
    property below reads the clock.) *)
Definition sleep (ms : N) : M unit :=
  modify (fun m => {|
    component := component m;
    script := script m;
    trace := trace m;
    now := (now m + ms)%N |}).

(** The ghost event that shows the text a turn received. *)
Definition observe (text : jsstring) : M unit :=
  update (fun a => a) [Answered text].

(* ================================================================== *)
(** ** App.tsx: the orchestrator                                       *)
(* ================================================================== *)

(** How one pass through the body of the [while] loop ends. *)
Inductive Signal := Continue | Break.

(** [Math.max(instanceCount * 2, 20)] *)
Definition MAX_TURNS (instanceCount : nat) : nat :=
  Nat.max (instanceCount * 2) 20.

(** [activeInstances[turnCount % instanceCount]]; the remainder by zero is
    [NaN], and an index that is [NaN] or past the end gives [undefined]. *)
Definition instance_at (activeInstances : list AIInstance)
    (turnCount instanceCount : nat) : option AIInstance :=
  if instanceCount =? 0 then None
  else nth_error activeInstances (turnCount mod instanceCount).

(** [text.replace(terminateSignal, "").trim()] *)
Definition cleanResponse (text : jsstring) : jsstring :=
  trim (replace text terminateSignal []).

Section Orchestrator.

(** The service module that the component imports. *)
Variable svc : ServiceModule.

(** [handleInstanceModelChange] *)
Definition handleInstanceModelChange (id' modelId : jsstring) : M unit :=
  setInstances
    (map (fun inst =>
            if Js.eqb (id inst) id'
            then {| id := id inst; name := name inst; color := color inst;
                    borderColor := borderColor inst; model := modelId |}
            else inst)).

(** [finalizeSynthesis] *)
Definition finalizeSynthesis : M unit :=
  setStatus running ;;
  setActiveInstanceId (Some (lit "SYNT")) ;;
  try_finally
    (try_catch
       (a <- get_component ;;
        finalResult <-
          await (getFinalSynthesis svc (optimizedTopicRef a)
                   (currentHistoryRef a) (synthesisModel a)) ;;
        setVerdict (Some finalResult) ;;
        setStatus concluded)
       (setVerdict (Some (VText (lit "Critical error during synthesis phase."))) ;;
        setStatus concluded))
    (setActiveInstanceId None ;;
     set_isRunningRef false).

(** The body of the [while] loop of [loop].  [instanceCount] and
    [activeInstances] are the values captured by the closure. *)
Definition turn (instanceCount : nat) (activeInstances : list AIInstance)
    : M Signal :=
  a <- get_component ;;
  match instance_at activeInstances (turnCountRef a) instanceCount with
  | None => throw (* [instance.id] on [undefined] *)
  | Some instance =>
      setActiveInstanceId (Some (id instance)) ;;
      a0 <- get_component ;;
      reply <-
        await (getAIResponse svc instance (optimizedTopicRef a0)
                 (currentHistoryRef a0) instanceCount) ;;
      let text := Reply.text reply in
      let grounding := Reply.grounding reply in
      observe text ;;
      let cleanResponse := cleanResponse text in
      timestamp <- Date_now ;;
      let newEntry := {|
        authorId := id instance;
        authorName := name instance;
        content := cleanResponse;
        timestamp := timestamp;
        isHuman := None;
        grounding := grounding |} in
      a1 <- get_component ;;
      set_currentHistoryRef (currentHistoryRef a1 ++ [newEntry]) ;;
      a2 <- get_component ;;
      setHistory (currentHistoryRef a2) ;;
      a3 <- get_component ;;
      set_turnCountRef (turnCountRef a3 + 1) ;;
      if includes text terminateSignal then ret Break
      else sleep 600 ;; ret Continue
  end.

(** The [while (turnCountRef.current < MAX_TURNS)] loop.  The result says
    whether the loop was left ([true]) or the fuel ran out ([false]). *)
Fixpoint while_turns (fuel maxTurns instanceCount : nat)
    (activeInstances : list AIInstance) : M bool :=
  match fuel with
  | 0 => ret false
  | S fuel' =>
      a <- get_component ;;
      if turnCountRef a <? maxTurns then
        signal <- turn instanceCount activeInstances ;;
        match signal with
        | Break => ret true
        | Continue => while_turns fuel' maxTurns instanceCount activeInstances
        end
      else ret true
  end.

(** [loop].  The call of [finalizeSynthesis] stands in the [try] block as
    in the source; it is not awaited there and it never throws.  The result
    is [false] only when the fuel given to the [while] loop ran out. *)
Definition loop : M bool :=
  a <- get_component ;;
  let instanceCount := instanceCount a in
  let activeInstances := firstn instanceCount (instances a) in
  let MAX_TURNS := MAX_TURNS instanceCount in
  try_catch
    (left <- while_turns (S MAX_TURNS) MAX_TURNS instanceCount activeInstances ;;
     if left then finalizeSynthesis ;; ret true
     else ret false)
    (setStatus idle ;;
     set_isRunningRef false ;;
     ret true).

(** [runExperiment] *)
Definition runExperiment : M bool :=
  a <- get_component ;;
  if isRunningRef a || negb (truthy (Some (trim (topicInput a)))) then ret true
  else if Js.eqb (toLowerCase (trim (topicInput a))) (lit "5090 giveaway") then
    setTopicInput [] ;;
    setIsDevMenuOpen true ;;
    ret true
  else
    set_isRunningRef true ;;
    setVerdict None ;;
    setHistory [] ;;
    set_currentHistoryRef [] ;;
    set_turnCountRef 0 ;;
    setStatus running ;;
    setTopic (topicInput a) ;;
    let capturedTopic := topicInput a in
    setTopicInput [] ;;
    setIsEngineering true ;;
    optimized <- await (promptEngineerTopic svc capturedTopic) ;;
    set_optimizedTopicRef optimized ;;
    setIsEngineering false ;;
    loop.

(** [resetExperiment] *)
Definition resetExperiment : M unit :=
  setHistory [] ;;
  set_currentHistoryRef [] ;;
  set_turnCountRef 0 ;;
  setVerdict None ;;
  setStatus idle ;;
  setTopic [] ;;
  setActiveInstanceId None ;;
  set_isRunningRef false.

End Orchestrator.

(* ================================================================== *)
(** ** Vocabulary of the properties                                    *)
(* ================================================================== *)

(** The roster keeps the identities of [ALL_POTENTIAL_INSTANCES]: only the
    model of an agent can be reassigned. *)
Definition same_identities (l : list AIInstance) : Prop :=
  map id l = map id ALL_POTENTIAL_INSTANCES
  /\ map name l = map name ALL_POTENTIAL_INSTANCES.

(** The events that happened between machine [m] and a later machine [m']. *)
Definition new_events (m m' : Machine) : list Event :=
  skipn (length (trace m)) (trace m').

(** The texts received by the turns, in order. *)
Fixpoint answered (evs : list Event) : list jsstring :=
  match evs with
  | [] => []
  | Answered text :: evs' => text :: answered evs'
  | _ :: evs' => answered evs'
  end.


(** The successive values given to the status. *)
Fixpoint statuses (evs : list Event) : list DeliberationStatus :=
  match evs with
  | [] => []
  | SetStatus v :: evs' => v :: statuses evs'
  | _ :: evs' => statuses evs'
  end.

(** The requests sent to the endpoint, in order. *)
Fixpoint requests (evs : list Event) : list GenAI.Params :=
  match evs with
  | [] => []
  | Generate p :: evs' => p :: requests evs'
  | _ :: evs' => requests evs'
  end.

(** The transcript entry that a turn of [instance] appends for [reply]. *)
Definition entry_of (instance : AIInstance) (reply : Reply.t) (time : N)
    : DialogueEntry := {|
  authorId := id instance;
  authorName := name instance;
  content := cleanResponse (Reply.text reply);
  timestamp := time;
  isHuman := None;
  grounding := Reply.grounding reply
|}.

(** The machine that a completed turn of [instance] leaves, when
    [getAIResponse] resolved to [reply] and left the endpoint as [e]. *)
Definition turn_done (m : Machine) (instance : AIInstance) (reply : Reply.t)
    (e : GenAI.Endpoint) : Machine :=
  let h := currentHistoryRef (component m) ++ [entry_of instance reply (now m)] in
  {| component :=
       with_turnCountRef (turnCountRef (component m) + 1)
         (with_history h
            (with_currentHistoryRef h
               (with_activeInstanceId (Some (id instance)) (component m))));
     script := GenAI.script e;
     trace :=
       trace m ++ SetActiveInstanceId (Some (id instance))
         :: map Generate (GenAI.calls e)
         ++ [Answered (Reply.text reply); SetHistory h];
     now :=
       if includes (Reply.text reply) terminateSignal then now m
       else (now m + 600)%N |}.

(** The machine that a turn leaves when the awaited [getAIResponse] is
    rejected. *)
Definition turn_failed (m : Machine) (instance : AIInstance)
    (e : GenAI.Endpoint) : Machine :=
  {| component := with_activeInstanceId (Some (id instance)) (component m);
     script := GenAI.script e;
     trace :=
       trace m ++ SetActiveInstanceId (Some (id instance))
         :: map Generate (GenAI.calls e);
     now := now m |}.

(** The events of [finalizeSynthesis] when the verdict it sets is [v] and
    the synthesis call left the endpoint as [e]: the sentinel is exposed,
    the requests of the synthesis are sent, the verdict and the status are
    set, and the active-agent id is cleared. *)
Definition synthesis_events (v : Verdict) (e : GenAI.Endpoint) : list Event :=
  SetStatus running :: SetActiveInstanceId (Some (lit "SYNT"))
    :: map Generate (GenAI.calls e)
    ++ [SetVerdict (Some v); SetStatus concluded; SetActiveInstanceId None].

(** The machine that [finalizeSynthesis] leaves in that case. *)
Definition synthesis_done (m : Machine) (v : Verdict) (e : GenAI.Endpoint)
    : Machine :=
  {| component :=
       with_isRunningRef false
         (with_activeInstanceId None
            (with_status concluded
               (with_verdict (Some v)
                  (with_activeInstanceId (Some (lit "SYNT"))
                     (with_status running (component m))))));
     script := GenAI.script e;
     trace := trace m ++ synthesis_events v e;
     now := now m |}.

(** The verdict that [finalizeSynthesis] sets for a completion of
    [getFinalSynthesis]. *)
Definition verdict_of (r : Result Verdict) : Verdict :=
  match r with
  | Returned finalResult => finalResult
  | Thrown => VText (lit "Critical error during synthesis phase.")
  end.

(** The machine that the [catch] block of [loop] leaves. *)
Definition loop_caught (m : Machine) : Machine :=
  {| component := with_isRunningRef false (with_status idle (component m));
     script := script m;
     trace := trace m ++ [SetStatus idle];
     now := now m |}.

(** The endpoint as a call from the component finds it. *)
Definition endpoint_of (m : Machine) : GenAI.Endpoint :=
  {| GenAI.script := script m; GenAI.calls := [] |}.

Section Runs.

Variable svc : ServiceModule.
Variables (maxTurns instanceCount : nat) (activeInstances : list AIInstance).

(** The executions of the [while] loop, from the machine at the loop head to
    the machine at the exit, with the way the loop is left: the guard
    fails; the selected instance is [undefined]; the awaited call is
    rejected; the text holds the token; or the turn is followed by the rest
    of the loop. *)
Inductive Run : Machine -> Result bool -> Machine -> Prop :=
| run_exit m :
    maxTurns <= turnCountRef (component m) ->
    Run m (Returned true) m
| run_undefined m :
    turnCountRef (component m) < maxTurns ->
    instance_at activeInstances (turnCountRef (component m)) instanceCount
    = None ->
    Run m Thrown m
| run_rejected m instance e :
    turnCountRef (component m) < maxTurns ->
    instance_at activeInstances (turnCountRef (component m)) instanceCount
    = Some instance ->
    getAIResponse svc instance (optimizedTopicRef (component m))
      (currentHistoryRef (component m)) instanceCount (endpoint_of m)
    = (Thrown, e) ->
    Run m Thrown (turn_failed m instance e)
| run_break m instance reply e :
    turnCountRef (component m) < maxTurns ->
    instance_at activeInstances (turnCountRef (component m)) instanceCount
    = Some instance ->
    getAIResponse svc instance (optimizedTopicRef (component m))
      (currentHistoryRef (component m)) instanceCount (endpoint_of m)
    = (Returned reply, e) ->
    includes (Reply.text reply) terminateSignal = true ->
    Run m (Returned true) (turn_done m instance reply e)
| run_continue m instance reply e r m' :
    turnCountRef (component m) < maxTurns ->
    instance_at activeInstances (turnCountRef (component m)) instanceCount
    = Some instance ->
    getAIResponse svc instance (optimizedTopicRef (component m))
      (currentHistoryRef (component m)) instanceCount (endpoint_of m)
    = (Returned reply, e) ->
    includes (Reply.text reply) terminateSignal = false ->
    Run (turn_done m instance reply e) r m' ->
    Run m r m'.

(** The machines in which a turn of the loop started at [m] has just
    completed. *)
Inductive Visits : Machine -> Machine -> Prop :=
| visit_first m signal m1 :
    turnCountRef (component m) < maxTurns ->
    turn svc instanceCount activeInstances m = (Returned signal, m1) ->
    Visits m m1
| visit_later m m1 m2 :
    turnCountRef (component m) < maxTurns ->
    turn svc instanceCount activeInstances m = (Returned Continue, m1) ->
    Visits m1 m2 ->
    Visits m m2.

End Runs.

(** [getAIResponse] always resolves. *)
Definition resolves (svc : ServiceModule) : Prop :=
  forall instance topic history totalInstances e,
    exists reply e',
      getAIResponse svc instance topic history totalInstances e
      = (Returned reply, e').

(** The versions of the service module that the repository carries. *)
Definition shipped (svc : ServiceModule) : Prop :=
  svc = GeminiService.module
  \/ svc = GeminiServiceFallback.module
  \/ exists priorityList, svc = GeminiServicePriority.module priorityList.





(** A machine at the head of the loop of a council of [n], as
    [runExperiment] leaves it, with the outcomes [outcomes] to come. *)
Definition at_loop_head (n : nat) (outcomes : list GenAI.Outcome) : Machine := {|
  component :=
    with_isRunningRef true (with_status running (with_instanceCount n initial_app));
  script := outcomes;
  trace := [];
  now := 0
|}.

(** An answer of the endpoint with text [s] and no grounding. *)
Definition answer (s : string) : GenAI.Outcome :=
  Resolved {| GenAI.text := Some (lit s); GenAI.groundingChunks := None |}.

(** A short deliberation: the sixth answer holds the token, the seventh is
    the synthesis. *)
Definition six_turns : list GenAI.Outcome := [
  answer "Opening thesis.";
  answer "A refinement.";
  Rejected;
  answer "An objection.";
  answer "A reply to the objection.";
  answer "Consensus. [TERMINATE_DELIBERATION]";
  answer "FINAL VERDICT: settled."
].

(** The next call to the endpoint fails. *)
Definition failed (outcomes : list GenAI.Outcome) : bool :=
  match outcomes with
  | Resolved _ :: _ => false
  | _ => true
  end.

(** The request of a council turn to the model assigned to [instance], in
    the version with a priority list, and the request of the retry against
    the fallback model. *)
Definition primary_request (instance : AIInstance) (topic : jsstring)
    (history : list DialogueEntry) (totalInstances : nat) : GenAI.Params := {|
  GenAI.model := model instance;
  GenAI.contents := GeminiServicePriority.turn_prompt instance topic history;
  GenAI.config := Some (turn_config instance totalInstances)
|}.


(** The text with which an outcome answers a synthesis request, if it is
    an answer with a non-empty text. *)
Definition answer_text (o : GenAI.Outcome) : option jsstring :=
  match o with
  | Resolved r => if truthy (GenAI.text r) then GenAI.text r else None
  | Rejected => None
  end.

(** The outcome of the [k]-th call to come; the calls past the end of the
    script are rejected. *)
Definition outcome_at (outcomes : list GenAI.Outcome) (k : nat) : GenAI.Outcome :=
  nth k outcomes Rejected.

(** The transcript as the specification describes it in the synthesis
    prompt: the pairs "name: content", in the order of the transcript,
    separated by two newlines. *)
Fixpoint transcript_text (history : list DialogueEntry) : jsstring :=
  match history with
  | [] => []
  | [h] => authorName h ++ lit ": " ++ content h
  | h :: rest =>
      authorName h ++ lit ": " ++ content h ++ nl ++ nl ++ transcript_text rest
  end.

(** The events of [runExperiment] before the loop, when the refinement
    call left the endpoint as [e]. *)
Definition start_events (rawTopic : jsstring) (e : GenAI.Endpoint) : list Event :=
  [SetVerdict None; SetHistory []; SetStatus running; SetTopic rawTopic;
   SetTopicInput []; SetIsEngineering true]
  ++ map Generate (GenAI.calls e)
  ++ [SetIsEngineering false].

(** The machine at the head of the loop, as [runExperiment] leaves it when
    the refinement resolved to [refined] and left the endpoint as [e]. *)
Definition started (m : Machine) (refined : jsstring) (e : GenAI.Endpoint)
    : Machine :=
  {| component :=
       with_isEngineering false
         (with_optimizedTopicRef refined
            (with_topicInput []
               (with_topic (topicInput (component m))
                  (with_status running
                     (with_turnCountRef 0
                        (with_currentHistoryRef []
                           (with_history []
                              (with_verdict None
                                 (with_isRunningRef true (component m))))))))));
     script := GenAI.script e;
     trace := trace m ++ start_events (topicInput (component m)) e;
     now := now m |}.

(** The component with [topicInput] typed in, before anything ran. *)
Definition typed (rawTopic : string) (outcomes : list GenAI.Outcome) : Machine := {|
  component := with_topicInput (lit rawTopic) initial_app;
  script := outcomes;
  trace := [];
  now := 0
|}.


(* ================================================================== *)
(** ** Further vocabulary                                              *)
(* ================================================================== *)

(** The rendered transcript is the one the scheduler holds, and the turn
    counter counts its entries. *)
Definition consistent (a : App) : Prop :=
  history a = currentHistoryRef a
  /\ length (currentHistoryRef a) = turnCountRef a.

(** The machine that [runExperiment] leaves when the raw topic is the
    phrase that opens the diagnostics console. *)
Definition console_opened (m : Machine) : Machine :=
  {| component := with_isDevMenuOpen true (with_topicInput [] (component m));
     script := script m;
     trace := trace m ++ [SetTopicInput []; SetIsDevMenuOpen true];
     now := now m |}.

(** The machine that [runExperiment] leaves when the awaited
    [promptEngineerTopic] is rejected, the endpoint being left as [e]. *)
Definition start_rejected (m : Machine) (e : GenAI.Endpoint) : Machine :=
  {| component :=
       with_isEngineering true
         (with_topicInput []
            (with_topic (topicInput (component m))
               (with_status running
                  (with_turnCountRef 0
                     (with_currentHistoryRef []
                        (with_history []
                           (with_verdict None
                              (with_isRunningRef true (component m)))))))));
     script := GenAI.script e;
     trace :=
       trace m
       ++ [SetVerdict None; SetHistory []; SetStatus running;
           SetTopic (topicInput (component m)); SetTopicInput [];
           SetIsEngineering true]
       ++ map Generate (GenAI.calls e);
     now := now m |}.

(** The agent as [handleInstanceModelChange] rebuilds it:
    [{ ...inst, model: modelId }]. *)
Definition reassigned (inst : AIInstance) (modelId : jsstring) : AIInstance :=
  {| id := id inst; name := name inst; color := color inst;
     borderColor := borderColor inst; model := modelId |}.

(** The successive values given to the verdict. *)
Fixpoint verdicts (evs : list Event) : list (option Verdict) :=
  match evs with
  | [] => []
  | SetVerdict v :: evs' => v :: verdicts evs'
  | _ :: evs' => verdicts evs'
  end.

(** The text of a verdict. *)
Definition verdict_text (v : Verdict) : jsstring :=
  match v with
  | VText s => s
  | VRecord text _ => text
  end.

(** What a completed turn did: the agent that acted, what [getAIResponse]
    resolved to, the requests it sent and the time read by [Date.now()]. *)
Record Turn := {
  actor : AIInstance;
  resolved : Reply.t;
  sent : list GenAI.Params;
  time : N
}.

Definition entry_of_turn (t : Turn) : DialogueEntry :=
  entry_of (actor t) (resolved t) (time t).

(** The events of completed turns, the transcript being [h] before the
    first of them. *)
Fixpoint turns_events (h : list DialogueEntry) (ts : list Turn) : list Event :=
  match ts with
  | [] => []
  | t :: ts' =>
      SetActiveInstanceId (Some (id (actor t)))
        :: map Generate (sent t)
        ++ [Answered (Reply.text (resolved t)); SetHistory (h ++ [entry_of_turn t])]
        ++ turns_events (h ++ [entry_of_turn t]) ts'
  end.
(* ================================================================== *)
(** * Properties                                                       *)
(* ================================================================== *)

(** ** Strings *)

(** *** Facts about the string built-ins *)

Lemma Js_eqb_eq (s t : jsstring) : Js.eqb s t = true <-> s = t.
Proof.
  revert t; induction s as [|c s IH]; intros [|d t]; simpl; split;
    try congruence; try reflexivity.
  - intros H. apply andb_true_iff in H as [H1 H2].
    apply N.eqb_eq in H1. apply IH in H2. congruence.
  - intros H. injection H as -> ->. apply andb_true_iff. split.
    + apply N.eqb_refl.
    + now apply IH.
Qed.

Lemma Js_eqb_neq (s t : jsstring) : Js.eqb s t = false <-> s <> t.
Proof.
  split.
  - intros H E. apply Js_eqb_eq in E. congruence.
  - intros H. destruct (Js.eqb s t) eqn:E; [|reflexivity].
    apply Js_eqb_eq in E. contradiction.
Qed.

Lemma startsWith_iff (s pat : jsstring) :
  startsWith s pat = true <-> exists rest, s = pat ++ rest.
Proof.
  revert s; induction pat as [|p pat IH]; intros s; simpl.
  - split; [intros _; now exists s | reflexivity].
  - destruct s as [|c s].
    + split; [discriminate | intros [rest H]; discriminate].
    + split.
      * intros H. apply andb_true_iff in H as [H1 H2].
        apply N.eqb_eq in H1. apply IH in H2 as [rest ->].
        exists rest. now subst.
      * intros [rest H]. injection H as -> ->.
        apply andb_true_iff. split; [apply N.eqb_refl|].
        apply IH. now exists rest.
Qed.

Lemma includes_iff (s pat : jsstring) :
  includes s pat = true <-> exists before after, s = before ++ pat ++ after.
Proof.
  induction s as [|c s IH]; simpl.
  - rewrite orb_false_r, startsWith_iff. split.
    + intros [rest H]. now exists [], rest.
    + intros [before [after H]]. destruct before; [now exists after|discriminate].
  - rewrite orb_true_iff, startsWith_iff, IH. split.
    + intros [[rest H]|[before [after H]]].
      * now exists [], rest.
      * exists (c :: before), after. now rewrite H.
    + intros [[|b before] [after H]].
      * left. now exists after.
      * right. injection H as -> ->. now exists before, after.
Qed.

Lemma includes_infix (s pat before after : jsstring) :
  includes (before ++ s ++ after) pat = false -> includes s pat = false.
Proof.
  intros H. destruct (includes s pat) eqn:E; [|reflexivity].
  apply includes_iff in E as [b [a ->]].
  assert (includes (before ++ (b ++ pat ++ a) ++ after) pat = true) as H'.
  { apply includes_iff. exists (before ++ b), (a ++ after).
    now rewrite <- !app_assoc. }
  congruence.
Qed.

Lemma replace_without (s pat rep : jsstring) :
  includes s pat = false -> replace s pat rep = s.
Proof.
  induction s as [|c s IH]; simpl; intros H; apply orb_false_iff in H as [H1 H2];
    rewrite H1; [reflexivity|]. now rewrite IH.
Qed.

(** Replacing an occurrence by nothing shortens the string by the length of the
    pattern. *)
Lemma replace_at_start (s pat rep : jsstring) :
  startsWith s pat = true -> replace s pat rep = rep ++ skipn (length pat) s.
Proof. intros H. destruct s; simpl; now rewrite H. Qed.

Lemma replace_later (c : N) (s pat rep : jsstring) :
  startsWith (c :: s) pat = false ->
  replace (c :: s) pat rep = c :: replace s pat rep.
Proof. intros H. simpl. now rewrite H. Qed.

Lemma replace_with (s pat : jsstring) :
  includes s pat = true -> length (replace s pat []) + length pat = length s.
Proof.
  induction s as [|c s IH]; intros H.
  - simpl in H. rewrite orb_false_r in H.
    rewrite (replace_at_start _ _ _ H).
    apply startsWith_iff in H as [rest H]. destruct pat; [reflexivity|discriminate].
  - destruct (startsWith (c :: s) pat) eqn:E.
    + rewrite (replace_at_start _ _ _ E).
      apply startsWith_iff in E as [rest E]. rewrite E.
      rewrite app_nil_l, length_skipn, length_app. lia.
    + rewrite (replace_later _ _ _ _ E).
      simpl in H. rewrite E in H. simpl in H.
      simpl. rewrite <- (IH H). lia.
Qed.

Lemma trimStart_clean_start (s : jsstring) : clean_start (trimStart s) = true.
Proof.
  induction s as [|c s IH]; simpl; [reflexivity|].
  destruct (isWhiteSpace c) eqn:E; [exact IH|]. simpl. now rewrite E.
Qed.

Lemma trimStart_fixed (s : jsstring) : clean_start s = true -> trimStart s = s.
Proof.
  destruct s as [|c s]; simpl; [reflexivity|].
  intros H. apply negb_true_iff in H. now rewrite H.
Qed.

Lemma trimStart_suffix (s : jsstring) : exists blanks, s = blanks ++ trimStart s.
Proof.
  induction s as [|c s [blanks IH]]; simpl.
  - now exists [].
  - destruct (isWhiteSpace c).
    + exists (c :: blanks). simpl. now rewrite <- IH.
    + now exists [].
Qed.

Lemma trimEnd_prefix (s : jsstring) : exists blanks, s = trimEnd s ++ blanks.
Proof.
  unfold trimEnd. destruct (trimStart_suffix (rev s)) as [blanks H].
  exists (rev blanks). rewrite <- rev_app_distr, <- H. symmetry. apply rev_involutive.
Qed.

Lemma trim_infix (s : jsstring) : exists before after, s = before ++ trim s ++ after.
Proof.
  destruct (trimStart_suffix s) as [before H].
  destruct (trimEnd_prefix (trimStart s)) as [after H'].
  exists before, after. unfold trim. now rewrite <- H', <- H.
Qed.

Lemma clean_start_prefix (s t : jsstring) :
  clean_start (s ++ t) = true -> clean_start s = true.
Proof. destruct s; simpl; auto. Qed.

Lemma trimEnd_fixed (s : jsstring) : trimEnd (trimEnd s) = trimEnd s.
Proof.
  unfold trimEnd. rewrite rev_involutive.
  now rewrite (trimStart_fixed _ (trimStart_clean_start (rev s))).
Qed.

Lemma trim_clean_start (s : jsstring) : clean_start (trim s) = true.
Proof.
  unfold trim. destruct (trimEnd_prefix (trimStart s)) as [blanks H].
  apply clean_start_prefix with (t := blanks). rewrite <- H.
  apply trimStart_clean_start.
Qed.

(** [trim] is idempotent. *)
Lemma trim_idempotent (s : jsstring) : trim (trim s) = trim s.
Proof.
  unfold trim at 1. rewrite (trimStart_fixed _ (trim_clean_start s)).
  unfold trim. apply trimEnd_fixed.
Qed.

Lemma trim_without (s pat : jsstring) :
  includes s pat = false -> includes (trim s) pat = false.
Proof.
  destruct (trim_infix s) as [before [after H]]. intros E. rewrite H in E.
  exact (includes_infix _ _ _ _ E).
Qed.

(** *** The cleaning of a response *)

Lemma cleanResponse_without_token (text : jsstring) :
  includes text terminateSignal = false -> cleanResponse text = trim text.
Proof. intros H. unfold cleanResponse. now rewrite replace_without. Qed.

Lemma cleanResponse_fixed (text : jsstring) :
  includes (cleanResponse text) terminateSignal = false ->
  cleanResponse (cleanResponse text) = cleanResponse text.
Proof.
  intros H. rewrite (cleanResponse_without_token _ H).
  unfold cleanResponse. apply trim_idempotent.
Qed.

Lemma trim_length (s : jsstring) : length (trim s) <= length s.
Proof.
  destruct (trim_infix s) as [before [after H]].
  rewrite H at 2. rewrite !length_app. lia.
Qed.

Lemma cleanResponse_shrinks (text : jsstring) :
  includes text terminateSignal = true ->
  length (cleanResponse text) < length text.
Proof.
  intros H. unfold cleanResponse.
  pose proof (trim_length (replace text terminateSignal [])).
  pose proof (replace_with _ _ H).
  assert (length terminateSignal = 24) by reflexivity. lia.
Qed.

Lemma cleanResponse_moves (text : jsstring) :
  includes (cleanResponse text) terminateSignal = true ->
  cleanResponse (cleanResponse text) <> cleanResponse text.
Proof.
  intros H E. apply cleanResponse_shrinks in H. rewrite E in H. lia.
Qed.

(** C4 (as stated, refuted).  Cleaning is not idempotent on every input:
    one occurrence of the token is removed, and the removal can bring the
    two halves of another token together.  On both inputs below the stored
    content still holds the token, and a second cleaning changes it. *)
Lemma cleanResponse_not_idempotent :
  let doubled := lit "Agreed. [TERMINATE_DELIBERATION] [TERMINATE_DELIBERATION]" in
  let nested := lit "[TERMINATE_[TERMINATE_DELIBERATION]DELIBERATION]" in
  cleanResponse doubled = lit "Agreed.  [TERMINATE_DELIBERATION]"
  /\ cleanResponse (cleanResponse doubled) = lit "Agreed."
  /\ cleanResponse nested = lit "[TERMINATE_DELIBERATION]"
  /\ cleanResponse (cleanResponse nested) = []
  /\ ~ (forall text, cleanResponse (cleanResponse text) = cleanResponse text).
Proof.
  repeat split; try (vm_compute; reflexivity).
  intros H.
  specialize (H (lit "[TERMINATE_[TERMINATE_DELIBERATION]DELIBERATION]")).
  vm_compute in H. discriminate.
Qed.

(** C4 (amended).  A second cleaning changes nothing exactly when the
    cleaned text no longer holds the token; a text without the token is
    stored trimmed and cleaning it is idempotent; "X [TERMINATE_DELIBERATION]"
    is stored as "X"; the token is stripped from the middle of a text as
    well; and a token in lower case is not the token. *)
Theorem cleanResponse_exact :
  (forall text,
      cleanResponse (cleanResponse text) = cleanResponse text
      <-> includes (cleanResponse text) terminateSignal = false)
  /\ (forall text,
        includes text terminateSignal = false ->
        cleanResponse text = trim text
        /\ cleanResponse (cleanResponse text) = cleanResponse text)
  /\ cleanResponse (lit "X [TERMINATE_DELIBERATION]") = lit "X"
  /\ cleanResponse (lit " A [TERMINATE_DELIBERATION] B ") = lit "A  B"
  /\ cleanResponse (lit "X [terminate_deliberation]")
     = lit "X [terminate_deliberation]".
Proof.
  split; [|split; [|split; [|split]]].
  - intros text. split.
    + intros E. destruct (includes (cleanResponse text) terminateSignal) eqn:H;
        [|reflexivity].
      now apply cleanResponse_moves in H.
    + apply cleanResponse_fixed.
  - intros text H. split.
    + now apply cleanResponse_without_token.
    + apply cleanResponse_fixed.
      rewrite (cleanResponse_without_token _ H). now apply trim_without.
  - vm_compute. reflexivity.
  - vm_compute. reflexivity.
  - vm_compute. reflexivity.
Qed.

Lemma cleanResponse_exact_witness :
  let text := lit "  The plan is sound.  " in
  includes text terminateSignal = false
  /\ cleanResponse text = lit "The plan is sound."
  /\ cleanResponse (cleanResponse text) = cleanResponse text.
Proof.
  intros text.
  assert (includes text terminateSignal = false) as H by (vm_compute; reflexivity).
  split; [exact H|].
  destruct (proj1 (proj2 cleanResponse_exact) text H) as [H1 H2].
  split; [|exact H2].
  rewrite H1. vm_compute. reflexivity.
Defined.


(** ** The body of the loop *)

(** Case analysis on a machine, down to its fields. *)
Ltac destruct_machine m :=
  let a := fresh "a" in
  destruct m as [a ?sc ?tr ?clock];
  destruct a as [?f1 ?f2 ?f3 ?f4 ?f5 ?f6 ?f7 ?f8 ?f9 ?f10 ?f11 ?f12 ?f13 ?f14 ?f15].

(** Evaluation of the primitive computations on a machine given by its
    fields. *)
Ltac run_primitives :=
  cbv [setTopicInput setTopic setHistory setStatus setActiveInstanceId
       setVerdict setIsEngineering setIsDevMenuOpen setInstances
       setInstanceCount setSynthesisModel set_isRunningRef
       set_currentHistoryRef set_turnCountRef set_optimizedTopicRef
       observe Date_now sleep update modify get_component ret throw bind
       try_catch try_finally
       with_topicInput with_topic with_history with_status
       with_activeInstanceId with_verdict with_instanceCount with_instances
       with_synthesisModel with_isDevMenuOpen with_isEngineering
       with_isRunningRef with_currentHistoryRef with_turnCountRef
       with_optimizedTopicRef
       topicInput topic history status activeInstanceId verdict instanceCount
       instances synthesisModel isDevMenuOpen isEngineering isRunningRef
       currentHistoryRef turnCountRef optimizedTopicRef
       component script trace now endpoint_of].

Ltac normalize_trace :=
  cbn [app]; repeat rewrite <- app_assoc; cbn [app]; repeat rewrite app_nil_r.

Section Turn.

Variable svc : ServiceModule.
Variables (instanceCount : nat) (activeInstances : list AIInstance).

Lemma turn_undefined (m : Machine) :
  instance_at activeInstances (turnCountRef (component m)) instanceCount = None ->
  turn svc instanceCount activeInstances m = (Thrown, m).
Proof.
  intros H. unfold turn, bind, get_component. now rewrite H.
Qed.

Lemma turn_returned (m : Machine) (instance : AIInstance) (reply : Reply.t)
    (e : GenAI.Endpoint) :
  instance_at activeInstances (turnCountRef (component m)) instanceCount
  = Some instance ->
  getAIResponse svc instance (optimizedTopicRef (component m))
    (currentHistoryRef (component m)) instanceCount (endpoint_of m)
  = (Returned reply, e) ->
  turn svc instanceCount activeInstances m
  = (Returned (if includes (Reply.text reply) terminateSignal then Break
               else Continue),
     turn_done m instance reply e).
Proof.
  intros Hi Hs. unfold turn, bind at 1, get_component at 1. rewrite Hi.
  unfold await, turn_done, entry_of. revert Hs.
  destruct_machine m. run_primitives. intros ->. run_primitives.
  destruct (includes (Reply.text reply) terminateSignal);
    normalize_trace; reflexivity.
Qed.

Lemma turn_thrown (m : Machine) (instance : AIInstance) (e : GenAI.Endpoint) :
  instance_at activeInstances (turnCountRef (component m)) instanceCount
  = Some instance ->
  getAIResponse svc instance (optimizedTopicRef (component m))
    (currentHistoryRef (component m)) instanceCount (endpoint_of m)
  = (Thrown, e) ->
  turn svc instanceCount activeInstances m = (Thrown, turn_failed m instance e).
Proof.
  intros Hi Hs. unfold turn, bind at 1, get_component at 1. rewrite Hi.
  unfold await, turn_failed. revert Hs.
  destruct_machine m. run_primitives. intros ->.
  normalize_trace; reflexivity.
Qed.

(** The three ways a pass through the body can go. *)
Lemma turn_cases (m : Machine) :
  (instance_at activeInstances (turnCountRef (component m)) instanceCount = None
   /\ turn svc instanceCount activeInstances m = (Thrown, m))
  \/ (exists instance e,
        instance_at activeInstances (turnCountRef (component m)) instanceCount
        = Some instance
        /\ getAIResponse svc instance (optimizedTopicRef (component m))
             (currentHistoryRef (component m)) instanceCount (endpoint_of m)
           = (Thrown, e)
        /\ turn svc instanceCount activeInstances m
           = (Thrown, turn_failed m instance e))
  \/ (exists instance reply e,
        instance_at activeInstances (turnCountRef (component m)) instanceCount
        = Some instance
        /\ getAIResponse svc instance (optimizedTopicRef (component m))
             (currentHistoryRef (component m)) instanceCount (endpoint_of m)
           = (Returned reply, e)
        /\ turn svc instanceCount activeInstances m
           = (Returned (if includes (Reply.text reply) terminateSignal then Break
                        else Continue),
              turn_done m instance reply e)).
Proof.
  destruct (instance_at activeInstances (turnCountRef (component m)) instanceCount)
    as [instance|] eqn:Hi.
  - destruct (getAIResponse svc instance (optimizedTopicRef (component m))
                (currentHistoryRef (component m)) instanceCount (endpoint_of m))
      as [[reply|] e] eqn:Hs.
    + right. right. exists instance, reply, e. repeat split; try assumption.
      now apply turn_returned.
    + right. left. exists instance, e. repeat split; try assumption.
      now apply turn_thrown.
  - left. split; [reflexivity|]. now apply turn_undefined.
Qed.

End Turn.

(** ** The loop *)

Section Loop.

Variable svc : ServiceModule.

Lemma turn_done_turnCount (m : Machine) (instance : AIInstance)
    (reply : Reply.t) (e : GenAI.Endpoint) :
  turnCountRef (component (turn_done m instance reply e))
  = turnCountRef (component m) + 1.
Proof. reflexivity. Qed.

(** With enough fuel the [while] loop is left, along one of the executions
    described by [Run]: the fuel never runs out. *)
Lemma while_turns_run (maxTurns instanceCount : nat)
    (activeInstances : list AIInstance) (fuel : nat) :
  forall m,
    maxTurns - turnCountRef (component m) < fuel ->
    exists r m',
      while_turns svc fuel maxTurns instanceCount activeInstances m = (r, m')
      /\ Run svc maxTurns instanceCount activeInstances m r m'.
Proof.
  induction fuel as [|fuel IH]; intros m Hfuel; [lia|].
  cbn [while_turns]. unfold bind at 1. unfold get_component at 1.
  destruct (turnCountRef (component m) <? maxTurns) eqn:Hguard.
  - apply Nat.ltb_lt in Hguard.
    destruct (turn_cases svc instanceCount activeInstances m)
      as [[Hi Ht]|[(instance & e & Hi & Hs & Ht)|(instance & reply & e & Hi & Hs & Ht)]];
      unfold bind; rewrite Ht.
    + exists Thrown, m. split; [reflexivity|]. now apply run_undefined.
    + exists Thrown, (turn_failed m instance e). split; [reflexivity|].
      now apply run_rejected.
    + destruct (includes (Reply.text reply) terminateSignal) eqn:Htoken.
      * exists (Returned true), (turn_done m instance reply e).
        split; [reflexivity|]. now apply run_break.
      * destruct (IH (turn_done m instance reply e)) as (r & m' & Hw & Hrun).
        { rewrite turn_done_turnCount. lia. }
        exists r, m'. split; [exact Hw|].
        now apply run_continue with instance reply e.
  - apply Nat.ltb_ge in Hguard.
    exists (Returned true), m. split; [reflexivity|]. now apply run_exit.
Qed.

(** An execution of the loop is never left with the fuel flag down. *)
Lemma Run_result (maxTurns instanceCount : nat)
    (activeInstances : list AIInstance) (m m' : Machine) (r : Result bool) :
  Run svc maxTurns instanceCount activeInstances m r m' ->
  r = Returned true \/ r = Thrown.
Proof. induction 1; auto. Qed.

(** [finalizeSynthesis] returns, and leaves the machine [synthesis_done]. *)
Lemma finalizeSynthesis_done (m : Machine) :
  exists r e,
    getFinalSynthesis svc (optimizedTopicRef (component m))
      (currentHistoryRef (component m)) (synthesisModel (component m))
      (endpoint_of m)
    = (r, e)
    /\ finalizeSynthesis svc m = (Returned tt, synthesis_done m (verdict_of r) e).
Proof.
  destruct_machine m.
  unfold finalizeSynthesis, await, synthesis_done, synthesis_events, verdict_of.
  run_primitives.
  destruct (getFinalSynthesis svc f15 f13 f9 _) as [r e].
  exists r, e. split; [reflexivity|].
  destruct r as [finalResult|]; normalize_trace; reflexivity.
Qed.

(** [loop] returns: the [while] loop is left along an execution [Run], and
    then either [finalizeSynthesis] runs, or the [catch] block does. *)
Lemma loop_run (m : Machine) :
  let n := instanceCount (component m) in
  exists r m',
    Run svc (MAX_TURNS n) n (firstn n (instances (component m))) m r m'
    /\ loop svc m
       = (Returned true,
          match r with
          | Returned _ => snd (finalizeSynthesis svc m')
          | Thrown => loop_caught m'
          end).
Proof.
  intros n.
  destruct (@while_turns_run (MAX_TURNS n) n (firstn n (instances (component m)))
              (S (MAX_TURNS n)) m) as (r & m' & Hw & Hrun); [lia|].
  exists r, m'. split; [exact Hrun|].
  unfold loop. unfold bind at 1. unfold get_component at 1.
  fold n. unfold try_catch, bind. rewrite Hw.
  destruct (Run_result Hrun) as [-> | ->].
  - destruct (finalizeSynthesis_done m') as (rs & e & _ & Hf). rewrite Hf.
    reflexivity.
  - unfold loop_caught. destruct_machine m'. run_primitives.
    normalize_trace. reflexivity.
Qed.

End Loop.

(** ** What an execution of the loop does *)

Lemma answered_app (l1 l2 : list Event) :
  answered (l1 ++ l2) = answered l1 ++ answered l2.
Proof.
  induction l1 as [|ev l1 IH]; [reflexivity|].
  destruct ev; cbn; now rewrite ?IH.
Qed.


Lemma statuses_app (l1 l2 : list Event) :
  statuses (l1 ++ l2) = statuses l1 ++ statuses l2.
Proof.
  induction l1 as [|ev l1 IH]; [reflexivity|].
  destruct ev; cbn; now rewrite ?IH.
Qed.

Lemma requests_app (l1 l2 : list Event) :
  requests (l1 ++ l2) = requests l1 ++ requests l2.
Proof.
  induction l1 as [|ev l1 IH]; [reflexivity|].
  destruct ev; cbn; now rewrite ?IH.
Qed.

Lemma answered_generate (l : list GenAI.Params) : answered (map Generate l) = [].
Proof. induction l; auto. Qed.


Lemma statuses_generate (l : list GenAI.Params) : statuses (map Generate l) = [].
Proof. induction l; auto. Qed.

Lemma requests_generate (l : list GenAI.Params) : requests (map Generate l) = l.
Proof. induction l; cbn; congruence. Qed.

Lemma new_events_app (m m' : Machine) (evs : list Event) :
  trace m' = trace m ++ evs -> new_events m m' = evs.
Proof.
  intros H. unfold new_events. rewrite H.
  rewrite skipn_app, skipn_all, Nat.sub_diag. reflexivity.
Qed.


Section RunFacts.

Variable svc : ServiceModule.
Variables (maxTurns n : nat) (active : list AIInstance).

(** The loop writes the transcript, the turn counter and the active-agent
    id, and nothing else of the component. *)
Lemma Run_frame (m m' : Machine) (r : Result bool) :
  Run svc maxTurns n active m r m' ->
  topicInput (component m') = topicInput (component m)
  /\ topic (component m') = topic (component m)
  /\ status (component m') = status (component m)
  /\ verdict (component m') = verdict (component m)
  /\ instanceCount (component m') = instanceCount (component m)
  /\ instances (component m') = instances (component m)
  /\ synthesisModel (component m') = synthesisModel (component m)
  /\ isDevMenuOpen (component m') = isDevMenuOpen (component m)
  /\ isEngineering (component m') = isEngineering (component m)
  /\ isRunningRef (component m') = isRunningRef (component m)
  /\ optimizedTopicRef (component m') = optimizedTopicRef (component m).
Proof.
  induction 1; try (repeat split; reflexivity).
  destruct IHRun as (? & ? & ? & ? & ? & ? & ? & ? & ? & ? & ?).
  repeat split; etransitivity; try eassumption; reflexivity.
Qed.

(** The transcript grows by one entry per turn, written by the instance
    that the turn counter selects, and the counter follows. *)
Lemma Run_transcript (m m' : Machine) (r : Result bool) :
  Run svc maxTurns n active m r m' ->
  exists new,
    currentHistoryRef (component m') = currentHistoryRef (component m) ++ new
    /\ turnCountRef (component m') = turnCountRef (component m) + length new
    /\ (turnCountRef (component m) <= maxTurns ->
        turnCountRef (component m') <= maxTurns)
    /\ (history (component m) = currentHistoryRef (component m) ->
        history (component m') = currentHistoryRef (component m'))
    /\ (forall k entry,
          nth_error new k = Some entry ->
          exists instance,
            instance_at active (turnCountRef (component m) + k)
              n = Some instance
            /\ authorId entry = id instance
            /\ authorName entry = name instance).
Proof.
  induction 1 as [m Hm|m Hm Hi|m instance e Hm Hi Hs
                 |m instance reply e Hm Hi Hs Ht
                 |m instance reply e r m' Hm Hi Hs Ht Hrun IH].
  - exists []. rewrite app_nil_r, Nat.add_0_r. repeat split; auto.
    intros [|k] entry; discriminate.
  - exists []. rewrite app_nil_r, Nat.add_0_r. repeat split; auto.
    intros [|k] entry; discriminate.
  - exists []. cbn. rewrite app_nil_r, Nat.add_0_r. repeat split; auto.
    intros [|k] entry; discriminate.
  - exists [entry_of instance reply (now m)]. cbn. repeat split; try lia.
    intros [|[|k]] entry; cbn; try discriminate.
    intros [= <-]. exists instance. rewrite Nat.add_0_r. now repeat split.
  - destruct IH as (new & Hh & Hc & Hmax & Hsame & Hauthors).
    rewrite turn_done_turnCount in Hc, Hmax, Hauthors.
    change (currentHistoryRef (component (turn_done m instance reply e)))
      with (currentHistoryRef (component m) ++ [entry_of instance reply (now m)])
      in Hh, Hsame.
    change (history (component (turn_done m instance reply e)))
      with (currentHistoryRef (component m) ++ [entry_of instance reply (now m)])
      in Hsame.
    exists (entry_of instance reply (now m) :: new).
    split; [rewrite Hh, <- app_assoc; reflexivity|].
    split; [rewrite Hc; cbn [length]; lia|].
    split; [intros _; apply Hmax; lia|].
    split; [intros _; exact (Hsame eq_refl)|].
    intros [|k] entry; cbn [nth_error].
    + intros [= <-]. exists instance. rewrite Nat.add_0_r. now repeat split.
    + intros Hk. destruct (Hauthors k entry Hk) as (inst & Hinst & Ha).
      exists inst. split; [|exact Ha].
      rewrite <- Hinst. f_equal. lia.
Qed.

Lemma instance_at_In (t : nat) (instance : AIInstance) :
  instance_at active t n = Some instance ->
  In instance active.
Proof.
  unfold instance_at. destruct (n =? 0); [discriminate|].
  apply nth_error_In.
Qed.


End RunFacts.

(** ** The three versions of [getAIResponse] *)

(** None of them ever rejects: every error is caught and turned into a
    reply. *)
Lemma GeminiService_resolves : resolves GeminiService.module.
Proof.
  intros instance topic history n e. cbn [getAIResponse GeminiService.module].
  unfold GeminiService.getAIResponse, try_catch, bind, generateContent, ret.
  destruct (GenAI.script e) as [|[r|] rest]; eauto.
Qed.

Lemma GeminiServiceFallback_resolves : resolves GeminiServiceFallback.module.
Proof.
  intros instance topic history n e.
  cbn [getAIResponse GeminiServiceFallback.module].
  unfold GeminiServiceFallback.getAIResponse, try_catch, bind, generateContent, ret.
  destruct (negb (Js.eqb (model instance) (lit "gemini-flash-lite-latest")));
    destruct (GenAI.script e) as [|[r|] [|[r'|] rest]];
    cbn [GenAI.script GenAI.calls]; eauto.
Qed.

Lemma GeminiServicePriority_resolves (priorityList : list jsstring) :
  resolves (GeminiServicePriority.module priorityList).
Proof.
  intros instance topic history n e.
  cbn [getAIResponse GeminiServicePriority.module].
  unfold GeminiServicePriority.getAIResponse, try_catch, bind, generateContent, ret.
  destruct (negb (Js.eqb (model instance) (lit "gemini-flash-lite-latest")));
    destruct (GenAI.script e) as [|[r|] [|[r'|] rest]];
    cbn [GenAI.script GenAI.calls]; eauto.
Qed.

Lemma shipped_resolves (svc : ServiceModule) : shipped svc -> resolves svc.
Proof.
  intros [-> | [-> | [priorityList ->]]].
  - apply GeminiService_resolves.
  - apply GeminiServiceFallback_resolves.
  - apply GeminiServicePriority_resolves.
Qed.



(** ** The roster *)

Lemma potential_instances_nth (i : nat) :
  i < 50 -> nth_error ALL_POTENTIAL_INSTANCES i = Some (potential_instance i).
Proof.
  intros H. unfold ALL_POTENTIAL_INSTANCES.
  rewrite nth_error_map, nth_error_seq.
  apply Nat.ltb_lt in H. now rewrite H.
Qed.

Lemma same_identities_length (l : list AIInstance) :
  same_identities l -> length l = 50.
Proof.
  intros [H _]. apply (f_equal (@length _)) in H.
  now rewrite !length_map in H.
Qed.

Lemma same_identities_nth (l : list AIInstance) (i : nat) (agent : AIInstance) :
  same_identities l ->
  nth_error l i = Some agent ->
  i < 50
  /\ id agent = toString (i + 1)
  /\ name agent = name (potential_instance i).
Proof.
  intros Hl Hi.
  assert (i < 50) as Hlt.
  { rewrite <- (same_identities_length Hl). apply nth_error_Some. congruence. }
  destruct Hl as [Hid Hname].
  apply (f_equal (fun x => nth_error x i)) in Hid, Hname.
  rewrite !nth_error_map, Hi, (potential_instances_nth Hlt) in Hid, Hname.
  cbn [option_map] in Hid, Hname. split; [exact Hlt|].
  injection Hid as ->. injection Hname as ->. split; reflexivity.
Qed.

(** The roster of the mounted component has these identities, and
    reassigning a model keeps them. *)
Lemma initial_identities : same_identities (instances initial_app).
Proof. split; reflexivity. Qed.

Lemma handleInstanceModelChange_identities (id' modelId : jsstring) (m : Machine) :
  same_identities (instances (component m)) ->
  same_identities
    (instances (component (snd (handleInstanceModelChange id' modelId m)))).
Proof.
  intros [Hid Hname].
  unfold handleInstanceModelChange, setInstances, update, modify.
  cbn [snd component]. unfold with_instances. cbn [instances].
  split; [rewrite <- Hid | rewrite <- Hname]; rewrite map_map;
    apply map_ext; intros inst; destruct (Js.eqb (id inst) id'); reflexivity.
Qed.

(** In a council of [n] agents taken from a roster that is long enough,
    every turn finds its instance: the one at index [t mod n]. *)
Lemma instance_at_roster (l : list AIInstance) (n t : nat) :
  0 < n -> n <= length l ->
  exists instance,
    instance_at (firstn n l) t n = Some instance
    /\ nth_error l (t mod n) = Some instance.
Proof.
  intros Hn Hl. unfold instance_at.
  destruct (Nat.eqb_spec n 0) as [->|_]; [lia|].
  assert (t mod n < n) as Hlt by (apply Nat.mod_upper_bound; lia).
  rewrite nth_error_firstn. apply Nat.ltb_lt in Hlt as Hlt'. rewrite Hlt'.
  destruct (nth_error l (t mod n)) as [instance|] eqn:E.
  - now exists instance.
  - apply nth_error_None in E. lia.
Qed.


Section LoopFacts.

Variable svc : ServiceModule.

(** When [getAIResponse] always resolves and every turn finds its instance,
    the [while] loop is left normally. *)
Lemma Run_returns (maxTurns n : nat) (active : list AIInstance)
    (m m' : Machine) (r : Result bool) :
  resolves svc ->
  (forall t, instance_at active t n <> None) ->
  Run svc maxTurns n active m r m' ->
  r = Returned true.
Proof.
  intros Hsvc Hactive. induction 1 as [| m Hm Hi | m instance e Hm Hi Hs | |];
    auto.
  - now apply Hactive in Hi.
  - destruct (Hsvc instance (optimizedTopicRef (component m))
                (currentHistoryRef (component m)) n (endpoint_of m))
      as (reply & e' & Hs').
    congruence.
Qed.

(** The two ways [loop] can go: the [while] loop is left normally and the
    synthesis runs, or an error is caught. *)
Lemma loop_cases (m : Machine) :
  let n := instanceCount (component m) in
  exists r m1,
    Run svc (MAX_TURNS n) n (firstn n (instances (component m))) m r m1
    /\ ((r = Returned true
         /\ exists rs e,
             getFinalSynthesis svc (optimizedTopicRef (component m1))
               (currentHistoryRef (component m1))
               (synthesisModel (component m1)) (endpoint_of m1)
             = (rs, e)
             /\ loop svc m = (Returned true, synthesis_done m1 (verdict_of rs) e))
        \/ (r = Thrown /\ loop svc m = (Returned true, loop_caught m1))).
Proof.
  intros n. destruct (loop_run svc m) as (r & m1 & Hrun & Hloop). fold n in Hrun, Hloop.
  exists r, m1. split; [exact Hrun|].
  destruct (Run_result Hrun) as [-> | ->].
  - left. split; [reflexivity|].
    destruct (finalizeSynthesis_done svc m1) as (rs & e & Hs & Hf).
    exists rs, e. split; [exact Hs|]. now rewrite Hloop, Hf.
  - right. now split.
Qed.

(** [loop] leaves the transcript and the turn counter as the [while] loop
    left them, and adds to its events those of the synthesis, or of the
    [catch] block. *)
Lemma loop_tail (m : Machine) :
  let n := instanceCount (component m) in
  let final := snd (loop svc m) in
  exists r m1 tail,
    Run svc (MAX_TURNS n) n (firstn n (instances (component m))) m r m1
    /\ fst (loop svc m) = Returned true
    /\ trace final = trace m1 ++ tail
    /\ currentHistoryRef (component final) = currentHistoryRef (component m1)
    /\ history (component final) = history (component m1)
    /\ turnCountRef (component final) = turnCountRef (component m1)
    /\ ((r = Returned true
         /\ exists rs e,
             getFinalSynthesis svc (optimizedTopicRef (component m1))
               (currentHistoryRef (component m1))
               (synthesisModel (component m1)) (endpoint_of m1)
             = (rs, e)
             /\ tail = synthesis_events (verdict_of rs) e
             /\ final = synthesis_done m1 (verdict_of rs) e)
        \/ (r = Thrown /\ tail = [SetStatus idle] /\ final = loop_caught m1)).
Proof.
  intros n final. destruct (loop_cases m) as (r & m1 & Hrun & Hcases).
  fold n in Hrun. subst final.
  destruct Hcases as [(Hr & rs & e & Hs & ->) | (Hr & ->)].
  - exists r, m1, (synthesis_events (verdict_of rs) e).
    repeat split; auto. left. split; [exact Hr|]. exists rs, e. now repeat split.
  - exists r, m1, [SetStatus idle]. repeat split; auto.
Qed.

Lemma new_events_tail (m m1 final : Machine) (evs tail : list Event) :
  trace m1 = trace m ++ evs ->
  trace final = trace m1 ++ tail ->
  new_events m final = evs ++ tail.
Proof.
  intros H1 H2. apply new_events_app. now rewrite H2, H1, <- app_assoc.
Qed.

End LoopFacts.

(** ** C1: round-robin selection *)



(** ** C5: the transcript is as long as the turn counter says *)

Section Invariant.

Variable svc : ServiceModule.



End Invariant.



(** ** C2: the turn cap *)




Section Cap.

Variable svc : ServiceModule.



End Cap.



(** ** C3: termination is decided on the text as received *)



(** ** C6: a failing node *)


(** What [getAIResponse] does in the version with a priority list, case by
    case on the outcomes of the endpoint. *)
Lemma getAIResponse_primary (instance : AIInstance) (topic : jsstring)
    (history : list DialogueEntry) (n : nat) (r : GenAI.Response)
    (rest : list GenAI.Outcome) (made : list GenAI.Params) :
  GeminiServicePriority.getAIResponse instance topic history n
    {| GenAI.script := Resolved r :: rest; GenAI.calls := made |}
  = (Returned {| Reply.text :=
                   orElse (GenAI.text r) (lit "No analytical response generated.");
                 Reply.grounding := grounding_of r |},
     {| GenAI.script := rest;
        GenAI.calls := made ++ [primary_request instance topic history n] |}).
Proof. reflexivity. Qed.







(** The other two versions of [getAIResponse], on a failing primary call.
    The version with one synthesis model follows the same policy with other
    markers; the version in src/services/geminiService.ts has no fallback:
    it makes the one call and answers with a connection-error marker. *)
Lemma GeminiServiceFallback_policy (instance : AIInstance) (topic : jsstring)
    (history : list DialogueEntry) (n : nat) (outcomes : list GenAI.Outcome) :
  failed outcomes = true ->
  let run := GeminiServiceFallback.getAIResponse instance topic history n
               {| GenAI.script := outcomes; GenAI.calls := [] |} in
  exists reply e,
    run = (Returned reply, e)
    /\ (Js.eqb (model instance) fallbackModel = true ->
        length (GenAI.calls e) = 1 /\ Reply.text reply = lit "Node offline.")
    /\ (Js.eqb (model instance) fallbackModel = false ->
        length (GenAI.calls e) = 2
        /\ (failed (tl outcomes) = true ->
            Reply.text reply = lit "Critical system failure on this node.")).
Proof.
  intros Hfailed run. subst run.
  unfold GeminiServiceFallback.getAIResponse, try_catch, bind, generateContent, ret.
  cbn [GenAI.script GenAI.calls]. unfold fallbackModel.
  destruct (Js.eqb (model instance) (lit "gemini-flash-lite-latest"));
    destruct outcomes as [|[r0|] [|[r1|] rest]]; try discriminate;
    cbn [negb GenAI.script GenAI.calls tl];
    eexists; eexists; (split; [reflexivity|]);
    split; intros; try discriminate; split; auto; discriminate.
Qed.

Lemma GeminiService_no_fallback (instance : AIInstance) (topic : jsstring)
    (history : list DialogueEntry) (n : nat) (outcomes : list GenAI.Outcome) :
  failed outcomes = true ->
  exists e,
    GeminiService.getAIResponse instance topic history n
      {| GenAI.script := outcomes; GenAI.calls := [] |}
    = (Returned {| Reply.text := lit "[CONNECTION ERROR]";
                   Reply.grounding := None |}, e)
    /\ length (GenAI.calls e) = 1
    /\ GenAI.script e = tl outcomes.
Proof.
  intros Hfailed.
  unfold GeminiService.getAIResponse, try_catch, bind, generateContent, ret.
  cbn [GenAI.script GenAI.calls].
  destruct outcomes as [|[r0|] rest]; try discriminate;
    eexists; repeat split.
Qed.

(** ** C9: the synthesis prompt and the candidates *)

Lemma transcript_text_join (history : list DialogueEntry) :
  join (nl ++ nl) (map render history) = transcript_text history.
Proof.
  induction history as [|h [|h' rest] IH]; [reflexivity|reflexivity|].
  change (join (nl ++ nl) (map render (h :: h' :: rest)))
    with (render h ++ (nl ++ nl) ++ join (nl ++ nl) (map render (h' :: rest))).
  rewrite IH. unfold render. cbn [transcript_text].
  now rewrite <- !app_assoc.
Qed.


(** One round of the loop over the candidates. *)
Lemma attempt_step (prompt modelId : jsstring) (rest : list jsstring)
    (outcomes : list GenAI.Outcome) (made : list GenAI.Params) :
  GeminiServicePriority.attempt prompt (modelId :: rest)
    {| GenAI.script := outcomes; GenAI.calls := made |}
  = match answer_text (outcome_at outcomes 0) with
    | Some text =>
        (Returned (VRecord text modelId),
         {| GenAI.script := tl outcomes;
            GenAI.calls :=
              made ++ [GeminiServicePriority.synthesis_request prompt modelId] |})
    | None =>
        GeminiServicePriority.attempt prompt rest
          {| GenAI.script := tl outcomes;
             GenAI.calls :=
               made ++ [GeminiServicePriority.synthesis_request prompt modelId] |}
    end.
Proof.
  cbn [GeminiServicePriority.attempt].
  unfold try_catch, bind, generateContent, ret, outcome_at, answer_text.
  cbn [GenAI.script GenAI.calls].
  destruct outcomes as [|[r|] outcomes']; cbn [nth tl]; try reflexivity.
  destruct (truthy (GenAI.text r)) eqn:Htruthy; [|reflexivity].
  destruct (GenAI.text r) as [text|]; [reflexivity|discriminate].
Qed.

Lemma outcome_at_tl (outcomes : list GenAI.Outcome) (k : nat) :
  outcome_at (tl outcomes) k = outcome_at outcomes (S k).
Proof. unfold outcome_at. destruct outcomes; [destruct k|]; reflexivity. Qed.

Lemma skipn_tl (A : Type) (l : list A) (k : nat) :
  skipn k (tl l) = skipn (S k) l.
Proof. destruct l; [destruct k|]; reflexivity. Qed.


(** When no candidate answers with a non-empty text, all of them were
    called in order and the function throws. *)
Lemma attempt_exhausted (prompt : jsstring) (candidates : list jsstring) :
  forall outcomes made,
    (forall j, j < length candidates -> answer_text (outcome_at outcomes j) = None) ->
    GeminiServicePriority.attempt prompt candidates
      {| GenAI.script := outcomes; GenAI.calls := made |}
    = (Thrown,
       {| GenAI.script := skipn (length candidates) outcomes;
          GenAI.calls :=
            made ++ map (GeminiServicePriority.synthesis_request prompt)
                      candidates |}).
Proof.
  induction candidates as [|c rest IH]; intros outcomes made Hnone.
  - cbn. now rewrite app_nil_r.
  - rewrite attempt_step, (Hnone 0) by (cbn; lia).
    rewrite IH.
    + cbn [length map]. now rewrite skipn_tl, <- app_assoc.
    + intros j Hj. rewrite outcome_at_tl. apply Hnone. cbn. lia.
Qed.

(** In every case the calls made are those to a prefix of the candidates. *)
Lemma attempt_calls (prompt : jsstring) (candidates : list jsstring) :
  forall outcomes made,
    exists k,
      k <= length candidates
      /\ GenAI.calls
           (snd (GeminiServicePriority.attempt prompt candidates
                   {| GenAI.script := outcomes; GenAI.calls := made |}))
         = made ++ map (GeminiServicePriority.synthesis_request prompt)
                     (firstn k candidates).
Proof.
  induction candidates as [|c rest IH]; intros outcomes made.
  - exists 0. cbn. now rewrite app_nil_r.
  - rewrite attempt_step.
    destruct (answer_text (outcome_at outcomes 0)) as [text|].
    + exists 1. cbn. split; [lia|reflexivity].
    + destruct (IH (tl outcomes)
                  (made ++ [GeminiServicePriority.synthesis_request prompt c]))
        as (k & Hk & Hcalls).
      exists (S k). cbn [length firstn map]. split; [lia|].
      now rewrite Hcalls, <- app_assoc.
Qed.

Lemma requests_synthesis_events (v : Verdict) (e : GenAI.Endpoint) :
  requests (synthesis_events v e) = GenAI.calls e.
Proof.
  unfold synthesis_events. cbn [requests].
  rewrite requests_app, requests_generate. cbn. apply app_nil_r.
Qed.



(** ** C7: the synthesis always concludes *)

(** The two versions of [getFinalSynthesis] with one model never throw:
    they answer with the text, or with a string that says the synthesis
    failed.  The version in src/services/geminiService.ts separates the
    pairs of the transcript by one newline. *)
Lemma GeminiServiceFallback_synthesis (topic : jsstring)
    (history : list DialogueEntry) (modelId : jsstring)
    (outcomes : list GenAI.Outcome) :
  exists v e,
    GeminiServiceFallback.getFinalSynthesis topic history modelId
      {| GenAI.script := outcomes; GenAI.calls := [] |}
    = (Returned (VText v), e)
    /\ map GenAI.contents (GenAI.calls e)
       = [SYNTHESIS_PROMPT topic (transcript_text history)]
    /\ map GenAI.model (GenAI.calls e) = [modelId]
    /\ (failed outcomes = true ->
        v = lit "The Council has reached a stalemate. Synthesis engine unavailable.")
    /\ (forall r rest,
          outcomes = Resolved r :: rest ->
          v = orElse (GenAI.text r) (lit "Synthesis failed.")).
Proof.
  unfold GeminiServiceFallback.getFinalSynthesis, try_catch, bind,
    generateContent, ret.
  cbn [GenAI.script GenAI.calls]. rewrite transcript_text_join.
  destruct outcomes as [|[r|] rest]; eexists; eexists;
    (split; [reflexivity|]); cbn [GenAI.calls map app GenAI.contents GenAI.model];
    repeat split; try discriminate; try congruence.
Qed.

Lemma GeminiService_synthesis (topic : jsstring) (history : list DialogueEntry)
    (model : jsstring) (outcomes : list GenAI.Outcome) :
  exists v e,
    GeminiService.getFinalSynthesis topic history model
      {| GenAI.script := outcomes; GenAI.calls := [] |}
    = (Returned (VText v), e)
    /\ map GenAI.contents (GenAI.calls e)
       = [SYNTHESIS_PROMPT topic (join nl (map render history))]
    /\ map GenAI.model (GenAI.calls e) = [model]
    /\ (failed outcomes = true -> v = lit "Error generating final synthesis.")
    /\ (forall r rest,
          outcomes = Resolved r :: rest ->
          v = orElse (GenAI.text r) (lit "Synthesis failed.")).
Proof.
  unfold GeminiService.getFinalSynthesis, try_catch, bind, generateContent, ret.
  cbn [GenAI.script GenAI.calls].
  destruct outcomes as [|[r|] rest]; eexists; eexists;
    (split; [reflexivity|]); cbn [GenAI.calls map app GenAI.contents GenAI.model];
    repeat split; try discriminate; try congruence.
Qed.

Lemma statuses_synthesis_events (v : Verdict) (e : GenAI.Endpoint) :
  statuses (synthesis_events v e) = [running; concluded].
Proof.
  unfold synthesis_events. cbn [statuses].
  rewrite statuses_app, statuses_generate. reflexivity.
Qed.

(** C7.  Whatever the synthesis call does, [finalizeSynthesis] returns; the
    status goes to running and then to concluded, and nowhere else; a
    verdict is set.  When the call throws, which in the version with a
    priority list means that no candidate answered with a non-empty text,
    the verdict is the critical-error string; in the versions with one
    model a failed call gives the error string of that version.  And
    [loop] never leaves the session running. *)
Theorem synthesis_always_concludes (svc : ServiceModule) (m : Machine) :
  let final := snd (finalizeSynthesis svc m) in
  let call := getFinalSynthesis svc (optimizedTopicRef (component m))
                (currentHistoryRef (component m)) (synthesisModel (component m))
                (endpoint_of m) in
  fst (finalizeSynthesis svc m) = Returned tt
  /\ statuses (new_events m final) = [running; concluded]
  /\ status (component final) = concluded
  /\ isRunningRef (component final) = false
  /\ verdict (component final) <> None
  /\ (forall v, fst call = Returned v -> verdict (component final) = Some v)
  /\ (fst call = Thrown ->
      verdict (component final)
      = Some (VText (lit "Critical error during synthesis phase.")))
  /\ (forall priorityList,
        svc = GeminiServicePriority.module priorityList ->
        (forall j, j < length priorityList ->
                   answer_text (outcome_at (script m) j) = None) ->
        verdict (component final)
        = Some (VText (lit "Critical error during synthesis phase.")))
  /\ (svc = GeminiServiceFallback.module ->
      failed (script m) = true ->
      verdict (component final)
      = Some (VText (lit "The Council has reached a stalemate. Synthesis engine unavailable.")))
  /\ (svc = GeminiService.module ->
      failed (script m) = true ->
      verdict (component final)
      = Some (VText (lit "Error generating final synthesis.")))
  /\ status (component (snd (loop svc m))) <> running.
Proof.
  intros final call.
  destruct (finalizeSynthesis_done svc m) as (rs & e & Hs & Hf).
  fold call in Hs. subst final. rewrite Hf, Hs. cbn [fst snd].
  rewrite (@new_events_app m (synthesis_done m (verdict_of rs) e)
             (synthesis_events (verdict_of rs) e) eq_refl).
  rewrite statuses_synthesis_events.
  change (verdict (component (synthesis_done m (verdict_of rs) e)))
    with (Some (verdict_of rs)).
  split; [reflexivity|]. split; [reflexivity|]. split; [reflexivity|].
  split; [reflexivity|]. split; [discriminate|].
  split; [intros v ->; reflexivity|]. split; [intros ->; reflexivity|].
  split; [|split; [|split]].
  - intros priorityList -> Hnone. subst call.
    cbn [getFinalSynthesis GeminiServicePriority.module] in Hs.
    unfold GeminiServicePriority.getFinalSynthesis, endpoint_of in Hs.
    rewrite (@attempt_exhausted _ priorityList (script m) [] Hnone) in Hs.
    now injection Hs as <- _.
  - intros -> Hfailed. subst call.
    destruct (GeminiServiceFallback_synthesis (optimizedTopicRef (component m))
                (currentHistoryRef (component m)) (synthesisModel (component m))
                (script m)) as (v & e' & Hs' & _ & _ & Hv & _).
    cbn [getFinalSynthesis GeminiServiceFallback.module] in Hs.
    unfold endpoint_of in Hs. rewrite Hs' in Hs. injection Hs as <- _.
    cbn. now rewrite (Hv Hfailed).
  - intros -> Hfailed. subst call.
    destruct (GeminiService_synthesis (optimizedTopicRef (component m))
                (currentHistoryRef (component m)) (synthesisModel (component m))
                (script m)) as (v & e' & Hs' & _ & _ & Hv & _).
    cbn [getFinalSynthesis GeminiService.module] in Hs.
    unfold endpoint_of in Hs. rewrite Hs' in Hs. injection Hs as <- _.
    cbn. now rewrite (Hv Hfailed).
  - destruct (loop_tail svc m) as (r & m1 & tail & Hrun & _ & _ & _ & _ & _ & Hcases).
    destruct Hcases as [(_ & rs' & e' & _ & _ & ->) | (_ & _ & ->)]; discriminate.
Qed.

Lemma synthesis_always_concludes_witness :
  let svc := GeminiServicePriority.module
               [lit "gemini-3-pro-preview"; lit "gemini-flash-latest"] in
  let m := at_loop_head 4
             [Rejected;
              Resolved {| GenAI.text := None; GenAI.groundingChunks := None |}] in
  status (component m) = running
  /\ status (component (snd (finalizeSynthesis svc m))) = concluded
  /\ verdict (component (snd (finalizeSynthesis svc m)))
     = Some (VText (lit "Critical error during synthesis phase.")).
Proof.
  intros svc m.
  destruct (synthesis_always_concludes svc m)
    as (_ & _ & Hstatus & _ & _ & _ & _ & Hexhausted & _).
  split; [reflexivity|]. split; [exact Hstatus|].
  apply (Hexhausted _ eq_refl).
  intros [|[|j]] Hj; [reflexivity|reflexivity|cbn in Hj; lia].
Defined.

(** ** C8: the start of a session *)


(** When the guards of [runExperiment] let the topic through and the
    refinement resolves, [runExperiment] is [loop], started from the machine
    [started]. *)
Lemma runExperiment_started (svc : ServiceModule) (m : Machine)
    (refined : jsstring) (e : GenAI.Endpoint) :
  isRunningRef (component m) = false ->
  trim (topicInput (component m)) <> [] ->
  toLowerCase (trim (topicInput (component m))) <> lit "5090 giveaway" ->
  promptEngineerTopic svc (topicInput (component m)) (endpoint_of m)
  = (Returned refined, e) ->
  runExperiment svc m = loop svc (started m refined e).
Proof.
  intros Hrunning Htopic Hegg Hrefine.
  apply Js_eqb_neq in Hegg.
  assert (truthy (Some (trim (topicInput (component m)))) = true) as Htruthy.
  { cbn. destruct (trim (topicInput (component m))); [contradiction|reflexivity]. }
  unfold runExperiment. unfold bind at 1. unfold get_component at 1.
  rewrite Hrunning, Htruthy, Hegg. cbn [orb negb].
  unfold await, started, start_events. revert Hrefine.
  destruct_machine m. run_primitives. intros ->. normalize_trace.
  reflexivity.
Qed.

(** The three versions of [promptEngineerTopic] always resolve; when the
    call fails, the raw topic is used. *)
Lemma shipped_refines (svc : ServiceModule) (rawTopic : jsstring)
    (outcomes : list GenAI.Outcome) :
  shipped svc ->
  exists refined e,
    promptEngineerTopic svc rawTopic
      {| GenAI.script := outcomes; GenAI.calls := [] |}
    = (Returned refined, e)
    /\ length (GenAI.calls e) = 1
    /\ (failed outcomes = true -> refined = rawTopic)
    /\ (forall r rest,
          outcomes = Resolved r :: rest ->
          refined = orElse (option_map trim (GenAI.text r)) rawTopic).
Proof.
  intros [-> | [-> | [priorityList ->]]];
    cbn [promptEngineerTopic GeminiService.module GeminiServiceFallback.module
         GeminiServicePriority.module];
    unfold GeminiService.promptEngineerTopic,
      GeminiServiceFallback.promptEngineerTopic,
      GeminiServicePriority.promptEngineerTopic,
      try_catch, bind, generateContent, ret;
    cbn [GenAI.script GenAI.calls];
    destruct outcomes as [|[r|] rest]; eexists; eexists;
    (split; [reflexivity|]); cbn [GenAI.calls length app];
    repeat split; try discriminate; try congruence.
Qed.




(** ** C10: the exposed active-agent id *)




(** [resetExperiment] clears the session. *)
Lemma resetExperiment_done (m : Machine) :
  resetExperiment m
  = (Returned tt,
     {| component :=
          with_isRunningRef false
            (with_activeInstanceId None
               (with_topic []
                  (with_status idle
                     (with_verdict None
                        (with_turnCountRef 0
                           (with_currentHistoryRef []
                              (with_history [] (component m))))))));
        script := script m;
        trace :=
          trace m ++ [SetHistory []; SetVerdict None; SetStatus idle;
                      SetTopic []; SetActiveInstanceId None];
        now := now m |}).
Proof.
  unfold resetExperiment. destruct_machine m. run_primitives. normalize_trace.
  reflexivity.
Qed.


(** ** The roster *)

(** *** Decimal numerals *)

Lemma digits_inj (u v : Decimal.uint) : digits u = digits v -> u = v.
Proof.
  revert v; induction u; intros [] H; cbn in H; try discriminate;
    try reflexivity; injection H as H; f_equal; auto.
Qed.

Lemma toString_inj (a b : nat) : toString a = toString b -> a = b.
Proof.
  intros H. apply DecimalNat.Unsigned.to_uint_inj. now apply digits_inj.
Qed.

Lemma toString_nonempty (a : nat) : toString a <> [].
Proof.
  unfold toString. intros H.
  assert (Nat.to_uint a = Decimal.Nil) as E.
  { destruct (Nat.to_uint a); cbn in H; try discriminate; reflexivity. }
  apply (DecimalFacts.unorm_nonnil (Nat.to_uint a)).
  rewrite <- DecimalNat.Unsigned.to_of, DecimalNat.Unsigned.of_to. exact E.
Qed.

(** The numeral of a positive number has no leading zero. *)
Lemma toString_no_leading_zero (a : nat) (s : jsstring) :
  toString (a + 1) <> 48%N :: s.
Proof.
  unfold toString. intros H.
  destruct (Nat.to_uint (a + 1)) as [|u| | | | | | | | |] eqn:E; cbn in H;
    try discriminate; try (injection H as H _; discriminate).
  assert (Decimal.unorm (Decimal.D0 u) = Decimal.D0 u) as Hfix.
  { rewrite <- E, <- DecimalNat.Unsigned.to_of, DecimalNat.Unsigned.of_to.
    reflexivity. }
  rewrite DecimalFacts.unorm_D0 in Hfix. unfold Decimal.unorm in Hfix.
  destruct (Decimal.nzhead u) eqn:En; try discriminate.
  - injection Hfix as <-.
    apply (f_equal Nat.of_uint) in E.
    rewrite DecimalNat.Unsigned.of_to in E.
    change (Nat.of_uint (Decimal.D0 Decimal.Nil)) with 0 in E. lia.
  - now apply DecimalFacts.nzhead_nonzero in En.
Qed.

Lemma padStart_inj (a b : nat) :
  padStart (toString (a + 1)) 2 48%N = padStart (toString (b + 1)) 2 48%N ->
  a = b.
Proof.
  unfold padStart. intros H.
  assert (forall c, length (toString (c + 1)) <> 0) as Hlen.
  { intros c E. apply (@toString_nonempty (c + 1)).
    now destruct (toString (c + 1)). }
  pose proof (Hlen a) as Ha. pose proof (Hlen b) as Hb.
  destruct (2 - length (toString (a + 1))) as [|[|k]] eqn:Ea; [| |lia];
    destruct (2 - length (toString (b + 1))) as [|[|k']] eqn:Eb; try lia;
    cbn in H.
  - apply toString_inj in H. lia.
  - now apply toString_no_leading_zero in H.
  - symmetry in H. now apply toString_no_leading_zero in H.
  - injection H as H. apply toString_inj in H. lia.
Qed.

Lemma COLORS_shade (k : nat) :
  k < length COLORS ->
  nth k COLORS [] = lit "text-" ++ skipn 5 (nth k COLORS [])
  /\ replace (nth k COLORS []) (lit "text-") (lit "border-")
     = lit "border-" ++ skipn 5 (nth k COLORS []).
Proof.
  intros H. cbn in H.
  do 17 (destruct k as [|k]; [split; vm_compute; reflexivity|]). lia.
Qed.

(** X1.  The roster that [Array.from] builds: the ids and the names of its
    agents are pairwise distinct, the border class of an agent is its colour
    class with the prefix [text-] replaced by [border-], the seventeen
    colours repeat in a cycle, and every agent starts on the fallback
    model.  The array holds the first fifty of these agents. *)
Theorem roster_agents (i j : nat) :
  (id (potential_instance i) = id (potential_instance j) -> i = j)
  /\ (name (potential_instance i) = name (potential_instance j) -> i = j)
  /\ (exists shade,
        color (potential_instance i) = lit "text-" ++ shade
        /\ borderColor (potential_instance i) = lit "border-" ++ shade)
  /\ color (potential_instance (i + 17)) = color (potential_instance i)
  /\ model (potential_instance i) = fallbackModel
  /\ nth_error ALL_POTENTIAL_INSTANCES i
     = if i <? 50 then Some (potential_instance i) else None.
Proof.
  split; [|split; [|split; [|split; [|split]]]].
  - cbn [potential_instance id]. intros H. apply toString_inj in H. lia.
  - cbn [potential_instance name]. intros H. apply app_inv_head in H.
    now apply padStart_inj.
  - exists (skipn 5 (nth (i mod length COLORS) COLORS [])).
    cbn [potential_instance color borderColor].
    apply COLORS_shade. apply Nat.mod_upper_bound. discriminate.
  - cbn [potential_instance color]. f_equal.
    change (length COLORS) with 17.
    replace (i + 17) with (i + 1 * 17) by lia. apply Nat.Div0.mod_add.
  - reflexivity.
  - unfold ALL_POTENTIAL_INSTANCES. rewrite nth_error_map, nth_error_seq.
    now destruct (i <? 50).
Qed.
(** ** The handlers of the settings and of the session *)

(** X2.  [handleInstanceModelChange] on a roster that kept its identities:
    the agent whose id is the given one, and no other, gets the new model;
    its identity, its colours and its place in the roster are kept; an id
    that no agent has changes nothing.  Nothing else in the component
    changes and no request is sent. *)
Theorem model_change_hits_one_agent (id' modelId : jsstring) (m : Machine) :
  let m' := snd (handleInstanceModelChange id' modelId m) in
  same_identities (instances (component m)) ->
  fst (handleInstanceModelChange id' modelId m) = Returned tt
  /\ (forall i agent,
        nth_error (instances (component m)) i = Some agent ->
        (id' = toString (i + 1) ->
         nth_error (instances (component m')) i = Some (reassigned agent modelId))
        /\ (id' <> toString (i + 1) ->
            nth_error (instances (component m')) i = Some agent))
  /\ (forall i j, id' = toString (i + 1) -> id' = toString (j + 1) -> i = j)
  /\ ((forall i, i < 50 -> id' <> toString (i + 1)) ->
      instances (component m') = instances (component m))
  /\ length (instances (component m')) = length (instances (component m))
  /\ same_identities (instances (component m'))
  /\ component m' = with_instances (instances (component m')) (component m)
  /\ trace m' = trace m
  /\ script m' = script m.
Proof.
  intros m' Hroster.
  assert (instances (component m')
          = map (fun inst => if Js.eqb (id inst) id'
                             then reassigned inst modelId else inst)
              (instances (component m))) as Hmap.
  { subst m'. destruct_machine m. reflexivity. }
  split; [reflexivity|].
  split; [|split; [|split; [|split; [|split; [|split; [|split]]]]]].
  - intros i agent Hi. rewrite Hmap, nth_error_map, Hi. cbn [option_map].
    destruct (@same_identities_nth _ _ _ Hroster Hi) as (_ & Hid & _).
    rewrite Hid. split; intros H.
    + rewrite H. now rewrite (proj2 (Js_eqb_eq _ _) eq_refl).
    + assert (toString (i + 1) <> id') as H' by congruence.
      apply Js_eqb_neq in H'. now rewrite H'.
  - intros i j Hi Hj. rewrite Hi in Hj. apply toString_inj in Hj. lia.
  - intros Hnone. rewrite Hmap. rewrite <- (map_id (instances (component m))) at 2.
    apply map_ext_in. intros inst Hin.
    apply In_nth_error in Hin as [i Hi].
    destruct (@same_identities_nth _ _ _ Hroster Hi) as (Hlt & Hid & _).
    assert (id inst <> id') as H' by (rewrite Hid; intros E; now apply (Hnone i Hlt)).
    apply Js_eqb_neq in H'. now rewrite H'.
  - rewrite Hmap. apply length_map.
  - now apply handleInstanceModelChange_identities.
  - subst m'. destruct_machine m. reflexivity.
  - subst m'. destruct_machine m. cbn. now rewrite app_nil_r.
  - subst m'. destruct_machine m. reflexivity.
Qed.

Lemma model_change_hits_one_agent_witness :
  let m := at_loop_head 4 [] in
  let m' := snd (handleInstanceModelChange (lit "2") (lit "gemini-3-pro-preview") m) in
  option_map model (nth_error (instances (component m')) 1)
  = Some (lit "gemini-3-pro-preview")
  /\ nth_error (instances (component m')) 0 = nth_error (instances (component m)) 0.
Proof.
  pose proof (@model_change_hits_one_agent (lit "2") (lit "gemini-3-pro-preview")
                (at_loop_head 4 []) initial_identities) as H.
  cbv zeta in H. destruct H as (_ & H & _).
  split.
  - destruct (H 1 (potential_instance 1) eq_refl) as [H1 _].
    rewrite (H1 eq_refl). reflexivity.
  - destruct (H 0 (potential_instance 0) eq_refl) as [_ H0].
    rewrite H0; [reflexivity|]. vm_compute. discriminate.
Defined.

(** X3.  [resetExperiment], from any state of the component: the fields of
    the session (transcript, turn counter, verdict, status, topic, exposed
    agent, running flag) are those of the freshly mounted component; the
    settings (roster, council size, synthesis model), the text being typed
    and the console flag are kept; the refined topic and the engineering
    flag are not reset.  A second reset changes nothing more, and no request
    is sent. *)
Theorem reset_restores_session (m : Machine) :
  let m' := snd (resetExperiment m) in
  fst (resetExperiment m) = Returned tt
  /\ component m'
     = with_optimizedTopicRef (optimizedTopicRef (component m))
         (with_isEngineering (isEngineering (component m))
            (with_isDevMenuOpen (isDevMenuOpen (component m))
               (with_synthesisModel (synthesisModel (component m))
                  (with_instances (instances (component m))
                     (with_instanceCount (instanceCount (component m))
                        (with_topicInput (topicInput (component m))
                           initial_app))))))
  /\ component (snd (resetExperiment m')) = component m'
  /\ script m' = script m
  /\ requests (new_events m m') = []
  /\ consistent (component m').
Proof.
  intros m'. subst m'. destruct_machine m.
  unfold resetExperiment, consistent, initial_app. run_primitives.
  cbn [fst snd]. run_primitives.
  split; [reflexivity|]. split; [reflexivity|]. split; [reflexivity|].
  split; [reflexivity|]. split; [|split; reflexivity].
  rewrite (@new_events_app _ _ [SetHistory []; SetVerdict None; SetStatus idle;
                                SetTopic []; SetActiveInstanceId None]);
    [reflexivity|cbn [trace]; normalize_trace; reflexivity].
Qed.
(** ** The guards of [runExperiment] *)

(** The four ways [runExperiment] can go. *)
Lemma runExperiment_cases (svc : ServiceModule) (m : Machine) :
  ((isRunningRef (component m) = true \/ trim (topicInput (component m)) = [])
   /\ runExperiment svc m = (Returned true, m))
  \/ (isRunningRef (component m) = false
      /\ toLowerCase (trim (topicInput (component m))) = lit "5090 giveaway"
      /\ runExperiment svc m = (Returned true, console_opened m))
  \/ (isRunningRef (component m) = false
      /\ exists e,
          promptEngineerTopic svc (topicInput (component m)) (endpoint_of m)
          = (Thrown, e)
          /\ runExperiment svc m = (Thrown, start_rejected m e))
  \/ (isRunningRef (component m) = false
      /\ trim (topicInput (component m)) <> []
      /\ toLowerCase (trim (topicInput (component m))) <> lit "5090 giveaway"
      /\ exists refined e,
          promptEngineerTopic svc (topicInput (component m)) (endpoint_of m)
          = (Returned refined, e)
          /\ runExperiment svc m = loop svc (started m refined e)).
Proof.
  destruct (isRunningRef (component m)) eqn:Hrunning.
  { left. split; [now left|].
    unfold runExperiment, bind, get_component. now rewrite Hrunning. }
  destruct (trim (topicInput (component m))) as [|c s] eqn:Htopic.
  { left. split; [now right|].
    unfold runExperiment, bind, get_component. now rewrite Hrunning, Htopic. }
  destruct (Js.eqb (toLowerCase (c :: s)) (lit "5090 giveaway")) eqn:Hegg.
  { right. left. split; [reflexivity|]. split; [now apply Js_eqb_eq|].
    unfold runExperiment. unfold bind at 1. unfold get_component at 1.
    rewrite Hrunning, Htopic, Hegg. cbn [orb negb truthy].
    unfold console_opened. destruct_machine m. run_primitives.
    normalize_trace. reflexivity. }
  destruct (promptEngineerTopic svc (topicInput (component m)) (endpoint_of m))
    as [[refined|] e] eqn:Hrefine.
  - right. right. right. split; [reflexivity|]. split; [discriminate|].
    split; [now apply Js_eqb_neq|].
    exists refined, e. split; [reflexivity|].
    apply runExperiment_started; try assumption.
    + rewrite Htopic. discriminate.
    + rewrite Htopic. now apply Js_eqb_neq.
  - right. right. left. split; [reflexivity|]. exists e. split; [reflexivity|].
    unfold runExperiment. unfold bind at 1. unfold get_component at 1.
    rewrite Hrunning, Htopic, Hegg. cbn [orb negb truthy].
    unfold await, start_rejected. revert Hrefine.
    destruct_machine m. run_primitives. intros ->. normalize_trace.
    reflexivity.
Qed.

Section Guard.

Variable svc : ServiceModule.

(** A turn touches the transcript, the counter and the exposed agent, and
    nothing else of the component. *)
Lemma Visits_frame (maxTurns n : nat) (active : list AIInstance)
    (m m1 : Machine) :
  Visits svc maxTurns n active m m1 ->
  isRunningRef (component m1) = isRunningRef (component m)
  /\ status (component m1) = status (component m)
  /\ verdict (component m1) = verdict (component m)
  /\ optimizedTopicRef (component m1) = optimizedTopicRef (component m)
  /\ instances (component m1) = instances (component m)
  /\ instanceCount (component m1) = instanceCount (component m).
Proof.
  assert (forall m0 signal m2,
             turn svc n active m0 = (Returned signal, m2) ->
             isRunningRef (component m2) = isRunningRef (component m0)
             /\ status (component m2) = status (component m0)
             /\ verdict (component m2) = verdict (component m0)
             /\ optimizedTopicRef (component m2) = optimizedTopicRef (component m0)
             /\ instances (component m2) = instances (component m0)
             /\ instanceCount (component m2) = instanceCount (component m0))
    as Hturn.
  { intros m0 signal m2 H.
    destruct (turn_cases svc n active m0)
      as [[_ H'] | [(i & e & _ & _ & H') | (i & reply & e & _ & _ & H')]];
      rewrite H' in H; try discriminate.
    injection H as _ <-. destruct_machine m0. repeat split. }
  induction 1 as [m signal m1 _ H | m m1 m2 _ H _ IH].
  - now apply Hturn in H.
  - apply Hturn in H.
    destruct H as (H1 & H2 & H3 & H4 & H5 & H6).
    destruct IH as (I1 & I2 & I3 & I4 & I5 & I6).
    repeat split; congruence.
Qed.

End Guard.

(** X4.  A start request while a session runs is ignored: when the running
    flag is set, [runExperiment] changes nothing and sends nothing; and the
    flag is set at the head of the loop and after every turn of a session
    that [runExperiment] started, so that a second start between two turns
    is a no-op. *)
Theorem start_is_ignored_during_a_session (svc : ServiceModule) (m : Machine) :
  (isRunningRef (component m) = true -> runExperiment svc m = (Returned true, m))
  /\ forall refined e,
       let head := started m refined e in
       let n := instanceCount (component head) in
       runExperiment svc head = (Returned true, head)
       /\ forall m1,
            Visits svc (MAX_TURNS n) n (firstn n (instances (component head)))
              head m1 ->
            runExperiment svc m1 = (Returned true, m1).
Proof.
  assert (forall m0, isRunningRef (component m0) = true ->
                     runExperiment svc m0 = (Returned true, m0)) as Hguard.
  { intros m0 H. unfold runExperiment, bind, get_component. now rewrite H. }
  split; [apply Hguard|].
  intros refined e head n. split.
  - apply Hguard. subst head. destruct_machine m. reflexivity.
  - intros m1 Hvisit. apply Hguard.
    apply Visits_frame in Hvisit as (-> & _).
    subst head. destruct_machine m. reflexivity.
Qed.

(** X5.  With each of the three versions of the service module, a start
    request made when nothing runs always returns, and it leaves the
    running flag released, whatever the council size, the roster and the
    answers of the endpoint: a later start is never blocked.  The
    engineering flag is lowered again, and the status is not left at
    running by a session that started. *)
Theorem session_releases_the_guard (svc : ServiceModule) (m : Machine) :
  let final := snd (runExperiment svc m) in
  shipped svc ->
  isRunningRef (component m) = false ->
  fst (runExperiment svc m) = Returned true
  /\ isRunningRef (component final) = false
  /\ (isEngineering (component m) = false ->
      isEngineering (component final) = false)
  /\ (status (component final) = running -> status (component m) = running)
  /\ (trim (topicInput (component m)) <> [] ->
      topicInput (component final) = []).
Proof.
  intros final Hshipped Hrunning. subst final.
  destruct (runExperiment_cases svc m)
    as [[Hidle ->] | [(_ & _ & ->) | [(_ & e & Hthrown & _)
                                    | (_ & Htopic & _ & refined & e & _ & ->)]]].
  - cbn [fst snd]. repeat split; auto. intros H.
    destruct Hidle; [congruence|contradiction].
  - cbn [fst snd]. destruct_machine m. repeat split; auto.
  - exfalso.
    destruct (@shipped_refines svc (topicInput (component m)) (script m) Hshipped)
      as (refined & e' & H & _).
    unfold endpoint_of in Hthrown. congruence.
  - set (head := started m refined e).
    destruct (loop_tail svc head) as (r & m1 & tail & Hrun & Hfst & _ & _ & _ & _ & Hend).
    apply Run_frame in Hrun.
    destruct Hrun as (Hti & _ & Hst & _ & _ & _ & _ & _ & Heng & _).
    split; [exact Hfst|].
    assert (topicInput (component m1) = []) as Hti'.
    { rewrite Hti. subst head. destruct_machine m. reflexivity. }
    assert (isEngineering (component m1) = false) as Heng'.
    { rewrite Heng. subst head. destruct_machine m. reflexivity. }
    destruct Hend as [(_ & rs & e' & _ & _ & ->) | (_ & _ & ->)];
      destruct_machine m1; cbn in *; repeat split; auto; discriminate.
Qed.

Lemma session_releases_the_guard_witness :
  let m := typed "Should the council adopt proposal A?"
             (answer "Decide on proposal A." :: six_turns) in
  isRunningRef (component (snd (runExperiment GeminiService.module m))) = false.
Proof.
  exact (proj1 (proj2 (@session_releases_the_guard GeminiService.module
                         (typed "Should the council adopt proposal A?"
                            (answer "Decide on proposal A." :: six_turns))
                         (or_introl eq_refl) eq_refl))).
Defined.

(** X6.  The freshly mounted component is consistent (the rendered
    transcript is the scheduler's transcript, and the turn counter is its
    length), and every handler keeps it so, with any service module:
    [runExperiment], [loop], [finalizeSynthesis],
    [handleInstanceModelChange]; [resetExperiment] makes it so. *)
Theorem handlers_keep_transcript_consistent (svc : ServiceModule) (m : Machine) :
  consistent initial_app
  /\ consistent (component (snd (resetExperiment m)))
  /\ (consistent (component m) ->
      consistent (component (snd (runExperiment svc m)))
      /\ consistent (component (snd (loop svc m)))
      /\ consistent (component (snd (finalizeSynthesis svc m)))
      /\ forall id' modelId,
           consistent (component (snd (handleInstanceModelChange id' modelId m)))).
Proof.
  assert (forall m0, consistent (component m0) ->
                     consistent (component (snd (loop svc m0)))) as Hloop.
  { intros m0 [Hh Hlen].
    destruct (loop_tail svc m0)
      as (r & m1 & tail & Hrun & _ & _ & Hc & Hhist & Ht & _).
    destruct (Run_transcript Hrun) as (new & Hnew & Hcount & _ & Hsame & _).
    unfold consistent. rewrite Hc, Hhist, Ht. split; [now apply Hsame|].
    rewrite Hnew, Hcount, length_app. lia. }
  split; [split; reflexivity|]. split.
  { rewrite resetExperiment_done. destruct_machine m. split; reflexivity. }
  intros Hm. split; [|split; [now apply Hloop|split]].
  - destruct (runExperiment_cases svc m)
      as [[_ ->] | [(_ & _ & ->) | [(_ & e & _ & ->)
                                   | (_ & _ & _ & refined & e & _ & ->)]]].
    + exact Hm.
    + destruct Hm. destruct_machine m. split; assumption.
    + destruct_machine m. split; reflexivity.
    + apply Hloop. destruct_machine m. split; reflexivity.
  - destruct (finalizeSynthesis_done svc m) as (r & e & _ & ->).
    destruct Hm. destruct_machine m. split; assumption.
  - intros id' modelId. destruct Hm. destruct_machine m. split; assumption.
Qed.

Lemma handlers_keep_transcript_consistent_witness :
  let m := at_loop_head 4 six_turns in
  consistent (component (snd (loop GeminiService.module m))).
Proof.
  apply (proj1 (proj2 (proj2 (proj2 (@handlers_keep_transcript_consistent
                                       GeminiService.module
                                       (at_loop_head 4 six_turns)))
                         (conj eq_refl eq_refl)))).
Defined.
(** ** What [getAIResponse] resolves to *)

Lemma orElse_nonempty (x : option jsstring) (d : jsstring) :
  d <> [] -> orElse x d <> [].
Proof. destruct x as [[|c s]|]; cbn; auto; discriminate. Qed.

Lemma app_nonempty_r (s t : jsstring) : t <> [] -> s ++ t <> [].
Proof. intros H E. apply app_eq_nil in E as [_ E]. auto. Qed.

Lemma app_nonempty_l (s t : jsstring) : s <> [] -> s ++ t <> [].
Proof. intros H E. apply app_eq_nil in E as [E _]. auto. Qed.

(** A literal of the source that is not the empty string. *)
Ltac literal_nonempty := vm_compute; discriminate.

(** The version of src/services is told from the two others by the marker
    it answers when the call fails. *)
Lemma GeminiService_differs :
  GeminiServiceFallback.module <> GeminiService.module
  /\ forall priorityList,
       GeminiServicePriority.module priorityList <> GeminiService.module.
Proof.
  split; [|intros priorityList]; intros H;
    apply (f_equal (fun svc =>
                      fst (getAIResponse svc (potential_instance 0) [] [] 0
                             {| GenAI.script := []; GenAI.calls := [] |}))) in H;
    vm_compute in H; discriminate.
Qed.

(** The three versions of [getAIResponse]: the function resolves, to a text
    that is not empty, after one request or two; the second is the retry of
    a failed call by an agent that is not on the fallback model, which the
    version of src/services never makes. *)
Lemma getAIResponse_shipped (svc : ServiceModule) (instance : AIInstance)
    (topic : jsstring) (history : list DialogueEntry) (n : nat)
    (outcomes : list GenAI.Outcome) :
  shipped svc ->
  exists reply e,
    getAIResponse svc instance topic history n
      {| GenAI.script := outcomes; GenAI.calls := [] |}
    = (Returned reply, e)
    /\ Reply.text reply <> []
    /\ 1 <= length (GenAI.calls e) <= 2
    /\ GenAI.script e = skipn (length (GenAI.calls e)) outcomes
    /\ (svc = GeminiService.module -> length (GenAI.calls e) = 1)
    /\ (length (GenAI.calls e) = 2 ->
        failed outcomes = true /\ model instance <> fallbackModel).
Proof.
  intros [-> | [-> | [priorityList ->]]];
    cbn [getAIResponse GeminiService.module GeminiServiceFallback.module
         GeminiServicePriority.module];
    unfold GeminiService.getAIResponse, GeminiServiceFallback.getAIResponse,
      GeminiServicePriority.getAIResponse, try_catch, bind, generateContent, ret;
    cbn [GenAI.script GenAI.calls].
  - destruct outcomes as [|[r|] rest]; eexists; eexists;
      (split; [reflexivity|]); cbn [Reply.text GenAI.calls GenAI.script length app skipn];
      (split; [first [apply orElse_nonempty; literal_nonempty | literal_nonempty]|]);
      repeat split; auto; try lia; try discriminate.
  - destruct outcomes as [|[r|] rest];
      [destruct (Js.eqb (model instance) (lit "gemini-flash-lite-latest")) eqn:Hm
      | | destruct (Js.eqb (model instance) (lit "gemini-flash-lite-latest")) eqn:Hm;
          [|destruct rest as [|[r'|] rest']]];
      cbn [negb GenAI.script GenAI.calls]; eexists; eexists;
      (split; [reflexivity|]);
      cbn [Reply.text GenAI.calls GenAI.script length app skipn];
      (split; [first [apply orElse_nonempty; literal_nonempty | literal_nonempty]|]);
      repeat split; auto; try lia; try discriminate;
      try (apply Js_eqb_neq in Hm; exact Hm);
      try (intros E; now apply (proj1 GeminiService_differs) in E).
  - destruct outcomes as [|[r|] rest];
      [destruct (Js.eqb (model instance) (lit "gemini-flash-lite-latest")) eqn:Hm
      | | destruct (Js.eqb (model instance) (lit "gemini-flash-lite-latest")) eqn:Hm;
          [|destruct rest as [|[r'|] rest']]];
      cbn [negb GenAI.script GenAI.calls]; eexists; eexists;
      (split; [reflexivity|]);
      cbn [Reply.text GenAI.calls GenAI.script length app skipn];
      (split; [first [apply orElse_nonempty; literal_nonempty
                     | apply app_nonempty_r; literal_nonempty
                     | apply app_nonempty_l; literal_nonempty]|]);
      repeat split; auto; try lia; try discriminate;
      try (apply Js_eqb_neq in Hm; exact Hm);
      try (intros E; now apply (proj2 GeminiService_differs) in E).
Qed.


(** X7.  With each of the three versions of the service module,
    [getAIResponse] always resolves, whatever the endpoint does, and the
    text it resolves to is never the empty string: an answer without text
    is replaced by a default, and a failure by a marker.  It sends one
    request, or two when it retries, and consumes one outcome of the
    endpoint for each request. *)
Theorem reply_text_is_never_empty (svc : ServiceModule) (instance : AIInstance)
    (topic : jsstring) (history : list DialogueEntry) (n : nat)
    (outcomes : list GenAI.Outcome) :
  shipped svc ->
  exists reply e,
    getAIResponse svc instance topic history n
      {| GenAI.script := outcomes; GenAI.calls := [] |}
    = (Returned reply, e)
    /\ Reply.text reply <> []
    /\ 1 <= length (GenAI.calls e) <= 2
    /\ GenAI.script e = skipn (length (GenAI.calls e)) outcomes.
Proof.
  intros Hshipped.
  destruct (@getAIResponse_shipped svc instance topic history n outcomes Hshipped)
    as (reply & e & H & Htext & Hcalls & Hscript & _).
  exists reply, e. repeat split; try assumption; apply Hcalls.
Qed.

Lemma reply_text_is_never_empty_witness :
  exists reply e,
    getAIResponse (GeminiServicePriority.module []) (potential_instance 0)
      (lit "Topic") [] 4
      {| GenAI.script :=
           [Resolved {| GenAI.text := Some []; GenAI.groundingChunks := None |}];
         GenAI.calls := [] |}
    = (Returned reply, e)
    /\ Reply.text reply <> [].
Proof.
  destruct (@reply_text_is_never_empty (GeminiServicePriority.module [])
              (potential_instance 0) (lit "Topic") [] 4
              [Resolved {| GenAI.text := Some []; GenAI.groundingChunks := None |}]
              (or_intror (or_intror (ex_intro _ [] eq_refl))))
    as (reply & e & H & Htext & _).
  exists reply, e. split; assumption.
Defined.
(** ** The turns of a run, one by one *)

Lemma verdicts_app (l1 l2 : list Event) :
  verdicts (l1 ++ l2) = verdicts l1 ++ verdicts l2.
Proof.
  induction l1 as [|ev l1 IH]; [reflexivity|].
  destruct ev; cbn; now rewrite ?IH.
Qed.

Lemma verdicts_generate (l : list GenAI.Params) : verdicts (map Generate l) = [].
Proof. induction l; auto. Qed.

Section Turns.

Variable svc : ServiceModule.
Variables (maxTurns n : nat) (active : list AIInstance).

(** A run of the [while] loop is a sequence of completed turns, followed,
    when the run throws, by the events of the turn that failed.  Turn [k]
    is taken by the instance selected for the counter, and its reply is
    what [getAIResponse] resolved to on the transcript of the turns before
    it. *)
Lemma Run_turns (m m' : Machine) (r : Result bool) :
  Run svc maxTurns n active m r m' ->
  exists ts suffix,
    trace m' = trace m ++ turns_events (currentHistoryRef (component m)) ts ++ suffix
    /\ (r = Returned true -> suffix = [])
    /\ answered suffix = [] /\ verdicts suffix = [] /\ statuses suffix = []
    /\ currentHistoryRef (component m')
       = currentHistoryRef (component m) ++ map entry_of_turn ts
    /\ forall k t,
         nth_error ts k = Some t ->
         instance_at active (turnCountRef (component m) + k) n = Some (actor t)
         /\ exists outcomes e,
              getAIResponse svc (actor t) (optimizedTopicRef (component m))
                (currentHistoryRef (component m)
                 ++ map entry_of_turn (firstn k ts)) n
                {| GenAI.script := outcomes; GenAI.calls := [] |}
              = (Returned (resolved t), e)
              /\ GenAI.calls e = sent t.
Proof.
  induction 1 as [m Hm | m Hm Hi | m instance e Hm Hi Hs
                  | m instance reply e Hm Hi Hs Htext
                  | m instance reply e r m' Hm Hi Hs Htext Hrun IH].
  - exists [], []. cbn. rewrite !app_nil_r.
    do 6 (split; [reflexivity || auto|]).
    intros [|k] t H; discriminate.
  - exists [], []. cbn. rewrite !app_nil_r.
    do 6 (split; [reflexivity || auto|]).
    intros [|k] t H; discriminate.
  - exists [], (SetActiveInstanceId (Some (id instance))
                  :: map Generate (GenAI.calls e)).
    cbn [turns_events app map turn_failed trace component].
    rewrite app_nil_r.
    split; [reflexivity|]. split; [discriminate|].
    split; [cbn; apply answered_generate|].
    split; [cbn; apply verdicts_generate|].
    split; [cbn; apply statuses_generate|].
    split; [destruct_machine m; reflexivity|].
    intros [|k] t H; discriminate.
  - exists [{| actor := instance; resolved := reply; sent := GenAI.calls e;
               time := now m |}], [].
    cbn [turns_events app map turn_done trace component actor sent].
    split; [now rewrite !app_nil_r|].
    do 4 (split; [reflexivity || auto|]).
    split; [destruct_machine m; reflexivity|].
    intros [|[|k]] t H; try discriminate. injection H as <-.
    cbn [actor resolved sent firstn map]. rewrite Nat.add_0_r, app_nil_r.
    split; [exact Hi|].
    exists (script m), e. split; [exact Hs|reflexivity].
  - destruct IH as (ts & suffix & Htr & Hret & Hans & Hver & Hsta & Hcur & Hturns).
    set (t0 := {| actor := instance; resolved := reply; sent := GenAI.calls e;
                  time := now m |}).
    assert (currentHistoryRef (component (turn_done m instance reply e))
            = currentHistoryRef (component m) ++ [entry_of_turn t0]) as Hh.
    { destruct_machine m. reflexivity. }
    assert (optimizedTopicRef (component (turn_done m instance reply e))
            = optimizedTopicRef (component m)) as Hopt.
    { destruct_machine m. reflexivity. }
    assert (turnCountRef (component (turn_done m instance reply e))
            = turnCountRef (component m) + 1) as Hcount.
    { destruct_machine m. reflexivity. }
    exists (t0 :: ts), suffix.
    split.
    { rewrite Htr, Hh. cbn [turn_done trace turns_events].
      subst t0. cbn [actor sent resolved].
      repeat rewrite <- app_assoc. cbn [app]. repeat rewrite <- app_assoc.
      reflexivity. }
    split; [exact Hret|]. split; [exact Hans|]. split; [exact Hver|].
    split; [exact Hsta|].
    split.
    { rewrite Hcur, Hh. cbn [map]. now rewrite <- app_assoc. }
    intros [|k] t H.
    + injection H as <-. subst t0. cbn [actor resolved sent firstn map].
      rewrite Nat.add_0_r, app_nil_r. split; [exact Hi|].
      exists (script m), e. split; [exact Hs|reflexivity].
    + cbn [nth_error] in H. destruct (Hturns k t H) as (Hat & outs & e' & Hcall & Hsent).
      rewrite Hcount in Hat. rewrite Hopt, Hh in Hcall.
      split; [now replace (turnCountRef (component m) + S k)
                with (turnCountRef (component m) + 1 + k) by lia|].
      exists outs, e'. split; [|exact Hsent].
      cbn [firstn map]. rewrite <- app_assoc in Hcall. exact Hcall.
Qed.

End Turns.

Lemma answered_turns_events (h : list DialogueEntry) (ts : list Turn) :
  answered (turns_events h ts) = map (fun t => Reply.text (resolved t)) ts.
Proof.
  revert h; induction ts as [|t ts IH]; intros h; [reflexivity|].
  cbn [turns_events answered map]. rewrite answered_app, answered_generate.
  cbn. now rewrite IH.
Qed.

Lemma verdicts_turns_events (h : list DialogueEntry) (ts : list Turn) :
  verdicts (turns_events h ts) = [].
Proof.
  revert h; induction ts as [|t ts IH]; intros h; [reflexivity|].
  cbn [turns_events verdicts]. rewrite verdicts_app, verdicts_generate.
  cbn. apply IH.
Qed.

Lemma statuses_turns_events (h : list DialogueEntry) (ts : list Turn) :
  statuses (turns_events h ts) = [].
Proof.
  revert h; induction ts as [|t ts IH]; intros h; [reflexivity|].
  cbn [turns_events statuses]. rewrite statuses_app, statuses_generate.
  cbn. apply IH.
Qed.

Lemma requests_turns_events (h : list DialogueEntry) (ts : list Turn) :
  requests (turns_events h ts) = concat (map sent ts).
Proof.
  revert h; induction ts as [|t ts IH]; intros h; [reflexivity|].
  cbn [turns_events requests map concat].
  rewrite requests_app, requests_generate. cbn. now rewrite IH.
Qed.
(** ** A session, turn by turn *)

(** In a council of 2 to 20 agents of the roster, every turn finds its
    instance. *)
Lemma roster_always_selects (roster : list AIInstance) (n : nat) :
  2 <= n <= 20 ->
  same_identities roster ->
  forall t, instance_at (firstn n roster) t n <> None.
Proof.
  intros Hn Hroster t.
  destruct (@instance_at_roster roster n t) as (instance & -> & _);
    [lia| |discriminate].
  rewrite (same_identities_length Hroster). lia.
Qed.

(** The events and the transcript of [loop] when every turn finds its
    instance and [getAIResponse] resolves: the completed turns, then the
    synthesis. *)
Lemma loop_session (svc : ServiceModule) (m : Machine) :
  let n := instanceCount (component m) in
  let active := firstn n (instances (component m)) in
  let final := snd (loop svc m) in
  2 <= n <= 20 ->
  same_identities (instances (component m)) ->
  resolves svc ->
  exists ts m1 rs e,
    new_events m final
    = turns_events (currentHistoryRef (component m)) ts
      ++ synthesis_events (verdict_of rs) e
    /\ final = synthesis_done m1 (verdict_of rs) e
    /\ getFinalSynthesis svc (optimizedTopicRef (component m1))
         (currentHistoryRef (component m1)) (synthesisModel (component m1))
         (endpoint_of m1)
       = (rs, e)
    /\ optimizedTopicRef (component m1) = optimizedTopicRef (component m)
    /\ currentHistoryRef (component m1)
       = currentHistoryRef (component m) ++ map entry_of_turn ts
    /\ currentHistoryRef (component final)
       = currentHistoryRef (component m) ++ map entry_of_turn ts
    /\ (turnCountRef (component m) <= MAX_TURNS n ->
        turnCountRef (component m) + length ts <= MAX_TURNS n)
    /\ forall k t,
         nth_error ts k = Some t ->
         instance_at active (turnCountRef (component m) + k) n = Some (actor t)
         /\ exists outcomes e',
              getAIResponse svc (actor t) (optimizedTopicRef (component m))
                (currentHistoryRef (component m)
                 ++ map entry_of_turn (firstn k ts)) n
                {| GenAI.script := outcomes; GenAI.calls := [] |}
              = (Returned (resolved t), e')
              /\ GenAI.calls e' = sent t.
Proof.
  intros n active final Hn Hroster Hsvc.
  destruct (loop_tail svc m)
    as (r & m1 & tail & Hrun & _ & Htail & Hc & _ & _ & Hcases).
  fold n in Hrun. fold active in Hrun.
  pose proof (Run_returns Hsvc (roster_always_selects Hn Hroster) Hrun) as Hr.
  destruct (Run_turns Hrun)
    as (ts & suffix & Htr & Hsuffix & _ & _ & _ & Hcur & Hturns).
  rewrite (Hsuffix Hr), app_nil_r in Htr.
  destruct (Run_transcript Hrun) as (new & Hnew & Hcount & Hle & _).
  destruct (Run_frame Hrun) as (_ & _ & _ & _ & _ & _ & _ & _ & _ & _ & Hopt).
  destruct Hcases as [(_ & rs & e & Hs & -> & Hfinal) | (Hthrown & _)];
    [|congruence].
  exists ts, m1, rs, e.
  split; [exact (@new_events_tail m m1 final _ _ Htr Htail)|].
  split; [exact Hfinal|]. split; [exact Hs|]. split; [exact Hopt|].
  split; [exact Hcur|]. split; [fold final in Hc; now rewrite Hc|].
  split; [|exact Hturns].
  intros Hstart. specialize (Hle Hstart).
  rewrite Hcur in Hnew. apply app_inv_head in Hnew.
  rewrite Hcount, <- Hnew, length_map in Hle. exact Hle.
Qed.

Lemma In_firstn (A : Type) (x : A) (n : nat) (l : list A) :
  In x (firstn n l) -> In x l.
Proof.
  intros H. rewrite <- (firstn_skipn n l). apply in_or_app. now left.
Qed.

Lemma length_concat_bounds (A B : Type) (f : A -> list B) (lo hi : nat)
    (l : list A) :
  Forall (fun x => lo <= length (f x) <= hi) l ->
  lo * length l <= length (concat (map f l)) <= hi * length l.
Proof.
  induction 1 as [|x l Hx _ IH]; cbn [map concat length]; [lia|].
  rewrite length_app. lia.
Qed.

(** X8.  The requests of [loop], with each of the three versions of the
    service module, in a council of 2 to 20 agents of the roster: the turns
    send at least one request each and at most two, so at most
    [2 * MAX_TURNS] in all; they send exactly one each with the version of
    src/services, and with the other versions as long as every agent is on
    the fallback model, as in the roster that the component starts with.
    The synthesis then sends one request, or at most one for each model of
    the priority list. *)
Theorem request_budget (svc : ServiceModule) (m : Machine) :
  let n := instanceCount (component m) in
  let final := snd (loop svc m) in
  let turns := length (answered (new_events m final)) in
  shipped svc ->
  2 <= n <= 20 ->
  same_identities (instances (component m)) ->
  turnCountRef (component m) = 0 ->
  exists during synthesis,
    requests (new_events m final) = during ++ synthesis
    /\ turns <= MAX_TURNS n
    /\ turns <= length during <= 2 * turns
    /\ (svc = GeminiService.module
        \/ Forall (fun a => model a = fallbackModel) (instances (component m)) ->
        length during = turns)
    /\ (svc = GeminiService.module \/ svc = GeminiServiceFallback.module ->
        length synthesis = 1)
    /\ (forall priorityList,
          svc = GeminiServicePriority.module priorityList ->
          length synthesis <= length priorityList).
Proof.
  intros n final turns Hshipped Hn Hroster Hstart.
  destruct (@loop_session svc m Hn Hroster (shipped_resolves Hshipped))
    as (ts & m1 & rs & e & Hevs & _ & Hs & _ & _ & _ & Hcap & Hturns).
  fold n in Hcap, Hturns. fold final in Hevs.
  assert (turns = length ts) as Hlen.
  { subst turns. rewrite Hevs, answered_app, answered_turns_events.
    unfold synthesis_events. cbn [answered]. rewrite answered_app, answered_generate.
    cbn. now rewrite app_nil_r, length_map. }
  exists (concat (map sent ts)), (GenAI.calls e).
  split.
  { now rewrite Hevs, requests_app, requests_turns_events,
      requests_synthesis_events. }
  split; [rewrite Hlen; rewrite Hstart in Hcap; apply Hcap; lia|].
  assert (forall t, In t ts ->
            1 <= length (sent t) <= 2
            /\ (svc = GeminiService.module \/ model (actor t) = fallbackModel ->
                length (sent t) = 1)
            /\ In (actor t) (instances (component m))) as Hsent.
  { intros t Hin. apply In_nth_error in Hin as [k Hk].
    destruct (Hturns k t Hk) as (Hat & outs & e' & Hcall & <-).
    destruct (@getAIResponse_shipped svc (actor t)
                (optimizedTopicRef (component m))
                (currentHistoryRef (component m)
                 ++ map entry_of_turn (firstn k ts)) n outs Hshipped)
      as (reply' & e'' & Hcall' & _ & Hbound & _ & Hone & Htwo).
    rewrite Hcall in Hcall'. injection Hcall' as _ <-.
    split; [exact Hbound|]. split.
    - intros [Hsvc | Hmodel]; [now apply Hone|].
      destruct (Nat.eq_dec (length (GenAI.calls e')) 2) as [H2|H2]; [|lia].
      apply Htwo in H2 as [_ H2]. contradiction.
    - apply instance_at_In in Hat. now apply In_firstn in Hat. }
  split.
  { rewrite Hlen.
    pose proof (@length_concat_bounds _ _ sent 1 2 ts) as H.
    rewrite Nat.mul_1_l in H. apply H.
    apply Forall_forall. intros t Hin. now apply Hsent. }
  split.
  { intros Hone. rewrite Hlen.
    pose proof (@length_concat_bounds _ _ sent 1 1 ts) as H.
    rewrite Nat.mul_1_l in H.
    assert (Forall (fun t => 1 <= length (sent t) <= 1) ts) as Hall.
    { apply Forall_forall. intros t Hin.
      destruct (Hsent t Hin) as (_ & H1 & Hroster_t).
      rewrite H1; [lia|].
      destruct Hone as [Hsvc | Hmodels]; [now left|right].
      rewrite Forall_forall in Hmodels. now apply Hmodels. }
    specialize (H Hall). lia. }
  split.
  - intros [-> | ->]; cbn [getFinalSynthesis GeminiService.module
                            GeminiServiceFallback.module] in Hs.
    + destruct (GeminiService_synthesis (optimizedTopicRef (component m1))
                  (currentHistoryRef (component m1))
                  (synthesisModel (component m1)) (script m1))
        as (v & e' & Hs' & Hc & _).
      unfold endpoint_of in Hs. rewrite Hs in Hs'. injection Hs' as _ <-.
      apply (f_equal (@length _)) in Hc. now rewrite length_map in Hc.
    + destruct (GeminiServiceFallback_synthesis (optimizedTopicRef (component m1))
                  (currentHistoryRef (component m1))
                  (synthesisModel (component m1)) (script m1))
        as (v & e' & Hs' & Hc & _).
      unfold endpoint_of in Hs. rewrite Hs in Hs'. injection Hs' as _ <-.
      apply (f_equal (@length _)) in Hc. now rewrite length_map in Hc.
  - intros priorityList ->.
    cbn [getFinalSynthesis GeminiServicePriority.module] in Hs.
    unfold GeminiServicePriority.getFinalSynthesis, endpoint_of in Hs.
    match type of Hs with
    | GeminiServicePriority.attempt ?p _ _ = _ =>
        destruct (attempt_calls p priorityList (script m1) []) as (k & Hk & Hc)
    end.
    rewrite Hs in Hc. cbn [snd app] in Hc.
    rewrite Hc, length_map, length_firstn. lia.
Qed.

Lemma request_budget_witness :
  let m := at_loop_head 4 six_turns in
  let final := snd (loop GeminiService.module m) in
  exists during synthesis,
    requests (new_events m final) = during ++ synthesis
    /\ length during = 6
    /\ length synthesis = 1.
Proof.
  assert (2 <= 4 <= 20) as Hn by lia.
  destruct (@request_budget GeminiService.module (at_loop_head 4 six_turns)
              (or_introl eq_refl) Hn initial_identities eq_refl)
    as (during & synthesis & H & _ & _ & Hone & Hsynth & _).
  exists during, synthesis. split; [exact H|]. split.
  - rewrite (Hone (or_introl eq_refl)). vm_compute. reflexivity.
  - apply Hsynth. now left.
Defined.
